(** * passphrase-py: the [Passphrase] engine of [passphrase/passphrase.py]

    A shallow embedding of the class [Passphrase]: its validated
    properties, [generate], [generate_password], [words_amount_needed],
    [entropy_bits] and [__str__].

    Python objects are Rocq values, attribute assignment and the reads of
    the operating system's entropy source are threaded through a small
    state-and-exception monad, and the modules the class imports but that
    are not part of the sources at hand ([secrets], [calc], [settings])
    enter either as section variables or as definitions written from the
    specification, marked as such. *)

From Stdlib Require Import ZArith List String Ascii Lia Bool.
From Stdlib Require Import SpecFloat DecimalString.
Import ListNotations.
Local Open Scope Z_scope.

(** ** Python values *)

Module Py.

(** The values that reach the engine from its callers.  A [bool] is an
    [int] in Python ([isinstance(True, int)] holds and [True == 1]); a
    [float] is an IEEE 754 binary64 number.  An object of any other
    class answers the [isinstance] tests of this module as [None] and
    strings do. *)
Inductive value : Type :=
| VNone
| VBool (b : bool)
| VInt (z : Z)
| VFloat (f : spec_float)
| VStr (s : string).

(** Exceptions.  [InvalidRange] and [EmptyAlphabet] are the failures the
    specification names for the [secrets] module, whose Python class
    the sources do not show. *)
Inductive exn : Type :=
| TypeError (msg : string)
| ValueError (msg : string)
| OverflowError (msg : string)
| IndexError (msg : string)
| InvalidRange
| EmptyAlphabet.

(** [isinstance(v, int)] *)
Definition isinstance_int (v : value) : bool :=
  match v with
  | VInt _ | VBool _ => true
  | _ => false
  end.

(** [isinstance(v, (int, float))] *)
Definition isinstance_number (v : value) : bool :=
  match v with
  | VInt _ | VBool _ | VFloat _ => true
  | _ => false
  end.

(** The integer an [int] instance stands for; [0] on anything else. *)
Definition int_of (v : value) : Z :=
  match v with
  | VInt z => z
  | VBool b => Z.b2z b
  | _ => 0
  end.

Definition prec : Z := 53.
Definition emax : Z := 1024.
Definition fzero : spec_float := S754_zero false.

(** The binary64 number nearest to an integer (ties to even); it is an
    infinity when the integer is out of the range of binary64. *)
Definition nearest_float (z : Z) : spec_float :=
  binary_normalize prec emax z 0 false.

(** [v < 0] for a number: [nan < 0] and [-0.0 < 0] are both [False]. *)
Definition lt_zero (v : value) : bool :=
  match v with
  | VInt z => z <? 0
  | VBool b => Z.b2z b <? 0
  | VFloat f => SFltb f fzero
  | _ => false
  end.

(** [float(v)] for a number: the identity on a float, the nearest
    binary64 on an int, [OverflowError] when that is out of range. *)
Definition to_float (v : value) : exn + spec_float :=
  match v with
  | VFloat f => inr f
  | VInt _ | VBool _ =>
      match nearest_float (int_of v) with
      | S754_infinity _ => inl (OverflowError "int too large to convert to float")
      | f => inr f
      end
  | _ => inl (TypeError "float() argument must be a string or a number")
  end.

(** The tokens a generation call produces: words and characters are
    strings, numbers are ints. *)
Inductive token : Type :=
| TStr (s : string)
| TInt (z : Z).

(** [str(t)] *)
Definition str (t : token) : string :=
  match t with
  | TStr s => s
  | TInt z => NilZero.string_of_int (Z.to_int z)
  end.

(** [s[:-k]] for a positive [k]: the stop index is clamped at [0]. *)
Definition drop_last (k : nat) (s : string) : string :=
  substring 0 (String.length s - k) s.

End Py.
Import Py.

(** ** Outcomes and the state-and-exception monad *)

(** A call returns, raises, or is still inside a rejection loop when the
    bound on the number of retries is reached. *)
Inductive res (A : Type) : Type :=
| Ret (a : A)
| Raise (e : exn)
| Starved.
Arguments Ret {A} a.
Arguments Raise {A} e.
Arguments Starved {A}.

Definition M (S A : Type) : Type := S -> res A * S.

Definition ret {S A} (a : A) : M S A := fun s => (Ret a, s).
Definition raise {S A} (e : exn) : M S A := fun s => (Raise e, s).
Definition get {S} : M S S := fun s => (Ret s, s).
Definition put {S} (s : S) : M S unit := fun _ => (Ret tt, s).

Definition bind {S A B} (m : M S A) (k : A -> M S B) : M S B :=
  fun s =>
    match m s with
    | (Ret a, s') => k a s'
    | (Raise e, s') => (Raise e, s')
    | (Starved, s') => (Starved, s')
    end.

Notation "x <- m ;; k" := (bind m (fun x => k))
  (at level 61, m at next level, right associativity).
Notation "m ;;; k" := (bind m (fun _ => k))
  (at level 61, right associativity).

(** A pure computation that may raise, run inside the monad. *)
Definition lift_res {S A} (r : res A) : M S A := fun s => (r, s).

(** ** The object *)

(** The attributes of a [Passphrase] instance.  [last_result] is [None]
    for Python's [None], which [__str__] tests for. *)
Record Passphrase : Type := mkPassphrase {
  _passwordlen : Z;
  _amount_n : Z;
  _amount_w : Z;
  last_result : option (list token);
  _randnum_min : Z;
  _randnum_max : Z;
  _entropy_bits_req : value;
  _wordlist : list string;
  _wordlist_entropy_bits : value;
  _external_wordlist : bool;
  _separator : string
}.

(** Property getters. *)
Definition entropy_bits_req (self : Passphrase) : value := _entropy_bits_req self.
Definition randnum_min (self : Passphrase) : Z := _randnum_min self.
Definition randnum_max (self : Passphrase) : Z := _randnum_max self.
Definition amount_w (self : Passphrase) : Z := _amount_w self.
Definition amount_n (self : Passphrase) : Z := _amount_n self.
Definition passwordlen (self : Passphrase) : Z := _passwordlen self.
Definition separator (self : Passphrase) : string := _separator self.
Definition wordlist (self : Passphrase) : list string := _wordlist self.

(** Attribute stores. *)
Definition with_passwordlen (x : Z) (o : Passphrase) : Passphrase :=
  mkPassphrase x (_amount_n o) (_amount_w o) (last_result o) (_randnum_min o)
    (_randnum_max o) (_entropy_bits_req o) (_wordlist o)
    (_wordlist_entropy_bits o) (_external_wordlist o) (_separator o).
Definition with_amount_n (x : Z) (o : Passphrase) : Passphrase :=
  mkPassphrase (_passwordlen o) x (_amount_w o) (last_result o) (_randnum_min o)
    (_randnum_max o) (_entropy_bits_req o) (_wordlist o)
    (_wordlist_entropy_bits o) (_external_wordlist o) (_separator o).
Definition with_amount_w (x : Z) (o : Passphrase) : Passphrase :=
  mkPassphrase (_passwordlen o) (_amount_n o) x (last_result o) (_randnum_min o)
    (_randnum_max o) (_entropy_bits_req o) (_wordlist o)
    (_wordlist_entropy_bits o) (_external_wordlist o) (_separator o).
Definition with_last_result (x : option (list token)) (o : Passphrase) : Passphrase :=
  mkPassphrase (_passwordlen o) (_amount_n o) (_amount_w o) x (_randnum_min o)
    (_randnum_max o) (_entropy_bits_req o) (_wordlist o)
    (_wordlist_entropy_bits o) (_external_wordlist o) (_separator o).
Definition with_randnum_min (x : Z) (o : Passphrase) : Passphrase :=
  mkPassphrase (_passwordlen o) (_amount_n o) (_amount_w o) (last_result o) x
    (_randnum_max o) (_entropy_bits_req o) (_wordlist o)
    (_wordlist_entropy_bits o) (_external_wordlist o) (_separator o).
Definition with_randnum_max (x : Z) (o : Passphrase) : Passphrase :=
  mkPassphrase (_passwordlen o) (_amount_n o) (_amount_w o) (last_result o)
    (_randnum_min o) x (_entropy_bits_req o) (_wordlist o)
    (_wordlist_entropy_bits o) (_external_wordlist o) (_separator o).
Definition with_entropy_bits_req (x : value) (o : Passphrase) : Passphrase :=
  mkPassphrase (_passwordlen o) (_amount_n o) (_amount_w o) (last_result o)
    (_randnum_min o) (_randnum_max o) x (_wordlist o)
    (_wordlist_entropy_bits o) (_external_wordlist o) (_separator o).
Definition with_wordlist (x : list string) (ext : bool) (o : Passphrase) : Passphrase :=
  mkPassphrase (_passwordlen o) (_amount_n o) (_amount_w o) (last_result o)
    (_randnum_min o) (_randnum_max o) (_entropy_bits_req o) x
    (_wordlist_entropy_bits o) ext (_separator o).
Definition with_separator (x : string) (o : Passphrase) : Passphrase :=
  mkPassphrase (_passwordlen o) (_amount_n o) (_amount_w o) (last_result o)
    (_randnum_min o) (_randnum_max o) (_entropy_bits_req o) (_wordlist o)
    (_wordlist_entropy_bits o) (_external_wordlist o) x.

Definition modify {S} (f : S -> S) : M S unit := fun s => (Ret tt, f s).

(** ** The validated setters *)

Definition set_entropy_bits_req (entropybits : value) : M Passphrase unit :=
  if negb (isinstance_number entropybits)
  then raise (TypeError "entropy_bits_req can only be int or float")
  else if lt_zero entropybits
  then raise (ValueError "entropy_bits_req should be greater than 0")
  else match to_float entropybits with
       | inl e => raise e
       | inr f => modify (with_entropy_bits_req (VFloat f))
       end.

Definition set_randnum_min (randnum : value) : M Passphrase unit :=
  if negb (isinstance_int randnum)
  then raise (TypeError "randnum_min can only be int")
  else if int_of randnum <? 0
  then raise (ValueError "randnum_min should be greater than 0")
  else modify (with_randnum_min (int_of randnum)).

Definition set_randnum_max (randnum : value) : M Passphrase unit :=
  if negb (isinstance_int randnum)
  then raise (TypeError "randnum_max can only be int")
  else if int_of randnum <? 0
  then raise (ValueError "randnum_max should be greater than 0")
  else modify (with_randnum_max (int_of randnum)).

Definition set_amount_w (amount : value) : M Passphrase unit :=
  if negb (isinstance_int amount)
  then raise (TypeError "amount_w can only be int")
  else if int_of amount <? 0
  then raise (ValueError "amount_w should be greater than 0")
  else modify (with_amount_w (int_of amount)).

Definition set_amount_n (amount : value) : M Passphrase unit :=
  if negb (isinstance_int amount)
  then raise (TypeError "amount_n can only be int")
  else if int_of amount <? 0
  then raise (ValueError "amount_n should be greater than 0")
  else modify (with_amount_n (int_of amount)).

Definition set_passwordlen (length : value) : M Passphrase unit :=
  if negb (isinstance_int length)
  then raise (TypeError "passwordlen can only be int")
  else if int_of length <? 0
  then raise (ValueError "passwordlen should be greater than 0")
  else modify (with_passwordlen (int_of length)).

Definition set_separator (sep : value) : M Passphrase unit :=
  match sep with
  | VStr s => modify (with_separator s)
  | _ => raise (TypeError "separator can only be string")
  end.

(** The [wordlist] setter, on an argument that is a list or a tuple of
    words: the words are copied and the list is marked as external. *)
Definition set_wordlist (words : list string) : M Passphrase unit :=
  modify (with_wordlist words true).

(** The numeric configuration fields, and assignment [self.f = v] to one
    of them through its setter. *)
Inductive field : Type :=
| F_entropy_bits_req
| F_randnum_min
| F_randnum_max
| F_amount_w
| F_amount_n
| F_passwordlen.

Definition assign (f : field) (v : value) : M Passphrase unit :=
  match f with
  | F_entropy_bits_req => set_entropy_bits_req v
  | F_randnum_min => set_randnum_min v
  | F_randnum_max => set_randnum_max v
  | F_amount_w => set_amount_w v
  | F_amount_n => set_amount_n v
  | F_passwordlen => set_passwordlen v
  end.

(** The class a field's setter asks for. *)
Definition accepts_type (f : field) (v : value) : bool :=
  match f with
  | F_entropy_bits_req => isinstance_number v
  | _ => isinstance_int v
  end.

(** The failures the specification calls [InvalidConfiguration]: a
    [TypeError] or a [ValueError] raised by a setter. *)
Definition InvalidConfiguration (e : exn) : bool :=
  match e with
  | TypeError _ | ValueError _ => true
  | _ => false
  end.

(** ** The entropy source *)

(** The operating system's source of random bytes: [tape] is the
    sequence of bytes it will deliver, [pos] how many have been read.  A
    byte is never delivered twice. *)
Record entropy : Type := mkEntropy {
  tape : nat -> Z;
  pos : nat
}.

(** [os.urandom(k)]: the next [k] bytes. *)
Definition urandom (k : nat) : M entropy (list Z) :=
  fun s =>
    (Ret (map (fun i => tape s (pos s + i)%nat mod 256) (seq 0 k)),
     mkEntropy (tape s) (pos s + k)).

(** ** The [secrets] module *)

Module secrets.

(** [n.bit_length()] *)
Definition bit_length (n : Z) : Z :=
  if n =? 0 then 0 else Z.log2 (Z.abs n) + 1.

(** Modelled from the spec: [secrets] is not among the sources; the
    number of bytes read for a draw below [n] is the bit length of [n]
    rounded up to a byte boundary. *)
Definition bytes_needed (n : Z) : nat :=
  Z.to_nat ((bit_length n + 7) / 8).

(** [int.from_bytes(bs, 'big')] *)
Definition int_from_bytes (bs : list Z) : Z :=
  fold_left (fun acc b => acc * 256 + b) bs 0.

(** Modelled from the spec: the mask that keeps the low [bit_length n]
    bits of a draw and clears the excess high bits. *)
Definition mask (n : Z) : Z := Z.ones (bit_length n).

(** Modelled from the spec: one draw of [random_below], before the
    comparison with [n]. *)
Definition draw (n : Z) : M entropy Z :=
  bs <- urandom (bytes_needed n) ;;
  ret (Z.land (int_from_bytes bs) (mask n)).

(** Modelled from the spec: [random_below(n)] reads the bytes that cover
    [n], masks the excess high bits and draws again while the masked
    value is not below [n].  [fuel] bounds the number of draws. *)
Fixpoint random_below (fuel : nat) (n : Z) : M entropy Z :=
  match fuel with
  | O => fun s => (Starved, s)
  | S fuel' =>
      r <- draw n ;;
      if r <? n then ret r else random_below fuel' n
  end.

(** Modelled from the spec: [random_between(min, max)] is
    [min + random_below(max - min + 1)] and fails with [InvalidRange]
    unless [max >= min >= 0]. *)
Definition randbetween (fuel : nat) (lo hi : Z) : M entropy Z :=
  if (0 <=? lo) && (lo <=? hi)
  then r <- random_below fuel (hi - lo + 1) ;; ret (lo + r)
  else raise InvalidRange.

(** Modelled from the spec: [random_choice(sequence)] is
    [sequence[random_below(len(sequence))]] and fails with
    [EmptyAlphabet] on an empty sequence. *)
Definition randchoice {T} (fuel : nat) (sequence : list T) : M entropy T :=
  match sequence with
  | [] => raise EmptyAlphabet
  | _ =>
      i <- random_below fuel (Z.of_nat (List.length sequence)) ;;
      match nth_error sequence (Z.to_nat i) with
      | Some x => ret x
      | None => raise (IndexError "list index out of range")
      end
  end.

End secrets.
Import secrets.

(** ** The [string] constants *)

Definition chars_of_codes (codes : list nat) : list string :=
  map (fun c => String (ascii_of_nat c) EmptyString) codes.

(** [string.digits] *)
Definition digits : list string := chars_of_codes (seq 48 10).
(** [string.ascii_letters]: lower case, then upper case. *)
Definition ascii_letters : list string :=
  chars_of_codes (seq 97 26 ++ seq 65 26).
(** [string.punctuation] *)
Definition punctuation : list string :=
  chars_of_codes (seq 33 15 ++ seq 58 7 ++ seq 91 6 ++ seq 123 4).

(** ** Generation *)

(** The engine runs against the object and the entropy source. *)
Definition world : Type := (Passphrase * entropy)%type.

Definition on_self {A} (m : M Passphrase A) : M world A :=
  fun w =>
    let (r, o) := m (fst w) in (r, (o, snd w)).

Definition on_os {A} (m : M entropy A) : M world A :=
  fun w =>
    let (r, e) := m (snd w) in (r, (fst w, e)).

(** [for _ in range(0, k): acc.append(<draw>)] *)
Fixpoint append_draws {S A} (k : nat) (one : M S A) (acc : list A)
  : M S (list A) :=
  match k with
  | O => ret acc
  | S k' => x <- one ;; append_draws k' one (acc ++ [x])
  end.

Section Engine.

(** The constants of [settings], which is not among the sources. *)
Variables MIN_NUM MAX_NUM : Z.

(** The bound on the number of draws of one rejection loop. *)
Variable fuel : nat.

Definition generate : M world (list token) :=
  self <- on_self get ;;
  if Z.of_nat (List.length (wordlist self)) <? 1
  then raise (ValueError "wordlist can't be empty")
  else
    passphrase <- append_draws (Z.to_nat (amount_w self))
                    (on_os (w <- randchoice fuel (wordlist self) ;; ret (TStr w)))
                    [] ;;
    passphrase <- append_draws (Z.to_nat (amount_n self))
                    (on_os (n <- randbetween fuel MIN_NUM MAX_NUM ;; ret (TInt n)))
                    passphrase ;;
    on_self (modify (with_last_result (Some passphrase))) ;;;
    ret passphrase.

Definition generate_password : M world (list token) :=
  self <- on_self get ;;
  let characters := digits ++ ascii_letters ++ punctuation in
  password <- append_draws (Z.to_nat (passwordlen self))
                (on_os (c <- randchoice fuel characters ;; ret (TStr c)))
                [] ;;
  on_self (modify (with_last_result (Some password))) ;;;
  ret password.

End Engine.

(** ** Rendering *)

Definition __str__ (self : Passphrase) : string :=
  match last_result self with
  | None => ""
  | Some result =>
      let separator_len := String.length (separator self) in
      let joined :=
        String.concat ""
          (map (fun w => w ++ separator self) (map str result)) in
      if (0 <? separator_len)%nat
      then drop_last separator_len joined
      else joined
  end%string.

(** ** Sizing *)

(** A pure computation that may raise, followed by another. *)
Definition and_then {A B} (r : res A) (k : A -> res B) : res B :=
  match r with
  | Ret a => k a
  | Raise e => Raise e
  | Starved => Starved
  end.

Section Sizing.

(** The functions of [calc], which is not among the sources: each
    returns a number or raises. *)
Variable calc_entropy_bits : list value -> res value.
Variable calc_entropy_bits_nrange : value -> value -> res value.
Variable calc_password_len_needed : value -> res value.
Variable calc_words_amount_needed : value -> value -> value -> value -> res value.

(** The static method [Passphrase.entropy_bits]; [lst] is the list or
    the tuple it is given. *)
Definition entropy_bits (lst : list value) : res value :=
  let size := List.length lst in
  if (size =? 2)%nat
     && isinstance_number (nth 0 lst VNone)
     && isinstance_number (nth 1 lst VNone)
  then calc_entropy_bits_nrange (nth 0 lst VNone) (nth 1 lst VNone)
  else calc_entropy_bits lst.

Definition password_len_needed : M Passphrase value :=
  self <- get ;;
  lift_res (calc_password_len_needed (entropy_bits_req self)).

Definition words_amount_needed : M Passphrase value :=
  self <- get ;;
  entropy_n <- lift_res (entropy_bits [VInt (randnum_min self);
                                       VInt (randnum_max self)]) ;;
  entropy_w <- (if negb (_external_wordlist self)
                then ret (_wordlist_entropy_bits self)
                else lift_res (entropy_bits (map VStr (_wordlist self)))) ;;
  lift_res (calc_words_amount_needed
              (entropy_bits_req self) entropy_w entropy_n
              (VInt (amount_n self))).

(** The entropy per word [words_amount_needed] works with. *)
Definition entropy_per_word (self : Passphrase) : res value :=
  if _external_wordlist self
  then entropy_bits (map VStr (wordlist self))
  else Ret (_wordlist_entropy_bits self).

End Sizing.

(** ** Vocabulary of the statements *)

(** A tape on which every rejection loop below [n], wherever it starts,
    accepts a draw within [fuel] draws. *)
Definition productive (fuel : nat) (n : Z) (t : nat -> Z) : Prop :=
  forall p, exists r p', random_below fuel n (mkEntropy t p) = (Ret r, mkEntropy t p').

(** The two kinds of draw of [generate] and the one of
    [generate_password], against the entropy source alone. *)
Definition draw_word (fuel : nat) (l : list string) : M entropy token :=
  w <- randchoice fuel l ;; ret (TStr w).
Definition draw_number (MIN_NUM MAX_NUM : Z) (fuel : nat) : M entropy token :=
  n <- randbetween fuel MIN_NUM MAX_NUM ;; ret (TInt n).

(** The masked value of the [k]-th draw a rejection loop below [n] makes
    when it starts in [s]: draw [k] reads the bytes that follow those of
    draw [k - 1]. *)
Definition window (n : Z) (s : entropy) (k : nat) : Z :=
  Z.land
    (int_from_bytes
       (map (fun i => tape s (pos s + k * bytes_needed n + i)%nat mod 256)
            (seq 0 (bytes_needed n))))
    (mask n).

(** The tokens of a passphrase of [self]: [amount_w] words of the word
    list, then [amount_n] numbers. *)
Definition passphrase_of (self : Passphrase) (tokens : list token) : Prop :=
  exists words numbers,
    tokens = map TStr words ++ map TInt numbers /\
    Z.of_nat (List.length words) = amount_w self /\
    Z.of_nat (List.length numbers) = amount_n self /\
    Forall (fun w => In w (wordlist self)) words.

(** The printable alphabet of [generate_password]. *)
Definition characters : list string := digits ++ ascii_letters ++ punctuation.

(** The tokens of a password of [self]: [passwordlen] characters of the
    printable alphabet. *)
Definition password_of (self : Passphrase) (tokens : list token) : Prop :=
  exists chars,
    tokens = map TStr chars /\
    Z.of_nat (List.length chars) = passwordlen self /\
    Forall (fun c => In c characters) chars.

(** [int.to_bytes(x, k, 'big')] *)
Fixpoint int_to_bytes (k : nat) (x : Z) : list Z :=
  match k with
  | O => []
  | S k' => int_to_bytes k' (x / 256) ++ [x mod 256]
  end.

(** The byte strings of length [k], each once. *)
Definition byte_strings (k : nat) : list (list Z) :=
  map (fun x => int_to_bytes k (Z.of_nat x)) (seq 0 (256 ^ k)).

(** Among the equally likely byte strings one draw below [n] can read,
    the number of those whose masked value is [v]. *)
Definition hits (n v : Z) : nat :=
  List.length
    (filter (fun bs => Z.land (int_from_bytes bs) (mask n) =? v)
            (byte_strings (bytes_needed n))).

(** ** Sample objects and tapes *)

(** A tape that delivers the bytes of [l], then zeros. *)
Definition tape_of (l : list Z) : entropy := mkEntropy (fun i => nth i l 0) 0.

Definition zeros : nat -> Z := fun _ => 0.

(** An instance as [__init__] leaves it when it is given a word file;
    the range of the numbers and the entropy wanted are those the
    specification gives as defaults. *)
Definition sample (words : list string) : Passphrase :=
  {| _passwordlen := 12;
     _amount_n := 0;
     _amount_w := 6;
     last_result := Some [];
     _randnum_min := 0;
     _randnum_max := 10000;
     _entropy_bits_req := VInt 77;
     _wordlist := words;
     _wordlist_entropy_bits := VInt 0;
     _external_wordlist := true;
     _separator := " " |}.

Definition four_words : list string :=
  ["correct"; "horse"; "battery"; "staple"]%string.

(** A die: one word and one number, the number wanted between 1 and 6. *)
Definition die : Passphrase :=
  with_amount_n 1 (with_amount_w 1
    (with_randnum_max 6 (with_randnum_min 1 (sample four_words)))).

(** ** Reading a numeric field *)

(** [self.f] for a numeric field, through its property getter. *)
Definition read (f : field) (self : Passphrase) : value :=
  match f with
  | F_entropy_bits_req => entropy_bits_req self
  | F_randnum_min => VInt (randnum_min self)
  | F_randnum_max => VInt (randnum_max self)
  | F_amount_w => VInt (amount_w self)
  | F_amount_n => VInt (amount_n self)
  | F_passwordlen => VInt (passwordlen self)
  end.

(** No numeric field reads as a number below zero. *)
Definition non_negative (self : Passphrase) : Prop :=
  forall f, lt_zero (read f self) = false.

(** What the setters never touch: the result, the word list and its
    bookkeeping, the separator. *)
Definition rest_of (self : Passphrase) :=
  (last_result self, _wordlist self, _wordlist_entropy_bits self,
   _external_wordlist self, _separator self).

(** ** Text *)

Module text.

(** [c.isspace()] for a character below 256: the ASCII white space, the
    four separators 28 to 31, NEL and the no-break space. *)
Definition isspace (c : ascii) : bool :=
  let n := nat_of_ascii c in
  ((9 <=? n) && (n <=? 13) || (28 <=? n) && (n <=? 32)
   || (n =? 133) || (n =? 160))%nat.

(** [s.lstrip()] *)
Fixpoint lstrip (s : string) : string :=
  match s with
  | EmptyString => EmptyString
  | String c s' => if isspace c then lstrip s' else s
  end.

(** [s.rstrip()] *)
Fixpoint rstrip (s : string) : string :=
  match s with
  | EmptyString => EmptyString
  | String c s' =>
      match rstrip s' with
      | EmptyString => if isspace c then EmptyString else String c EmptyString
      | r => String c r
      end
  end.

(** [s.strip()] *)
Definition strip (s : string) : string := rstrip (lstrip s).

(** [s.split()], scanning [s] with the field read so far in [cur]:
    fields are the maximal runs of characters that are not white
    space. *)
Fixpoint split_from (cur : string) (s : string) : list string :=
  match s with
  | EmptyString =>
      match cur with EmptyString => [] | _ => [cur] end
  | String c s' =>
      if isspace c
      then match cur with
           | EmptyString => split_from EmptyString s'
           | _ => cur :: split_from EmptyString s'
           end
      else split_from (cur ++ String c EmptyString)%string s'
  end.

Definition split (s : string) : list string := split_from EmptyString s.

(** No white space at all. *)
Fixpoint solid (s : string) : bool :=
  match s with
  | EmptyString => true
  | String c s' => negb (isspace c) && solid s'
  end.

(** White space only. *)
Fixpoint blank (s : string) : bool :=
  match s with
  | EmptyString => true
  | String c s' => isspace c && blank s'
  end.

(** No white space at either end. *)
Definition trimmed (s : string) : bool := String.eqb (strip s) s.

Definition newline : string := String (ascii_of_nat 10) EmptyString.
Definition tab : string := String (ascii_of_nat 9) EmptyString.

End text.
Import text.

(** ** Word files *)

(** The files the engine can see: for a path that is a regular file, the
    lines that iterating over the file opened as text yields. *)
Definition filesystem : Type := string -> option (list string).

(** What reading a word file raises: [FileNotFoundError], or an
    exception of the kinds above. *)
Inductive io_exn : Type :=
| FileNotFoundError (msg : string)
| Other (e : exn).

Definition io (A : Type) : Type := (io_exn + A)%type.

Definition _read_words_from_wordfile (fs : filesystem) (inputfile : string)
  : io (list string) :=
  match fs inputfile with
  | None =>
      inl (FileNotFoundError ("Input file does not exists: " ++ inputfile)%string)
  | Some lines => inr (map strip lines)
  end.

(** [[word.split()[1] for word in lines]] *)
Fixpoint second_fields (lines : list string) : io (list string) :=
  match lines with
  | [] => inr []
  | word :: lines' =>
      match nth_error (split word) 1 with
      | None => inl (Other (IndexError "list index out of range"))
      | Some w =>
          match second_fields lines' with
          | inl e => inl e
          | inr ws => inr (w :: ws)
          end
      end
  end.

Definition _read_words_from_diceware (fs : filesystem) (inputfile : string)
  : io (list string) :=
  match fs inputfile with
  | None =>
      inl (FileNotFoundError ("Input file does not exists: " ++ inputfile)%string)
  | Some lines => second_fields lines
  end.

(** [is_diceware is True] holds of the object [True] alone. *)
Definition is_True (v : value) : bool :=
  match v with
  | VBool true => true
  | _ => false
  end.

(** The readers return lists, which the [wordlist] setter accepts. *)
Definition import_words_from_file (fs : filesystem) (inputfile : string)
    (is_diceware : value) (self : Passphrase) : io unit * Passphrase :=
  match (if is_True is_diceware
         then _read_words_from_diceware fs inputfile
         else _read_words_from_wordfile fs inputfile) with
  | inl e => (inl e, self)
  | inr words => (inr tt, snd (set_wordlist words self))
  end.

(** The bundled [wordlist.json], which is not among the sources: a word
    list and the entropy of one of its words. *)
Record resource : Type := mkResource {
  resource_wordlist : list string;
  resource_entropy_bits : value
}.

(** The attributes of the class, which every instance starts from;
    [MIN_NUM], [MAX_NUM] and [ENTROPY_BITS_MIN] are those of
    [settings]. *)
Definition Passphrase_class (MIN_NUM MAX_NUM : Z) (ENTROPY_BITS_MIN : value)
  : Passphrase :=
  {| _passwordlen := 12;
     _amount_n := 0;
     _amount_w := 6;
     last_result := Some [];
     _randnum_min := MIN_NUM;
     _randnum_max := MAX_NUM;
     _entropy_bits_req := ENTROPY_BITS_MIN;
     _wordlist := [];
     _wordlist_entropy_bits := VInt 0;
     _external_wordlist := false;
     _separator := " " |}.

(** The attribute stores of the branch of [__init__] that reads the
    bundled list. *)
Definition with_builtin (r : resource) (o : Passphrase) : Passphrase :=
  mkPassphrase (_passwordlen o) (_amount_n o) (_amount_w o) (last_result o)
    (_randnum_min o) (_randnum_max o) (_entropy_bits_req o)
    (resource_wordlist r) (resource_entropy_bits r) false (_separator o).

(** [Passphrase(inputfile, is_diceware)], on the fresh instance [self]. *)
Definition __init__ (fs : filesystem) (bundled : resource)
    (inputfile : option string) (is_diceware : value) (self : Passphrase)
  : io unit * Passphrase :=
  match inputfile with
  | Some path => import_words_from_file fs path is_diceware self
  | None => (inr tt, with_builtin bundled self)
  end.

(** A word file and a diceware file. *)
Definition sample_fs : filesystem :=
  fun path =>
    (if String.eqb path "words.txt"
     then Some (map (fun w => w ++ newline) four_words)
     else if String.eqb path "dice.txt"
     then Some ["11111" ++ tab ++ "abacus" ++ newline;
                "11112" ++ tab ++ "abdomen" ++ newline]
     else if String.eqb path "gap.txt"
     then Some ["11111" ++ tab ++ "abacus" ++ newline; newline]
     else None)%string.

(** ** The [calc] module *)

Module calc.

(** Two values are the same symbol of an alphabet when they are the
    same value of the same class. *)
Definition value_eq_dec (a b : value) : {a = b} + {a <> b}.
Proof.
  decide equality;
    try apply Z.eq_dec; try apply Bool.bool_dec; try apply string_dec.
  decide equality;
    try apply Z.eq_dec; try apply Bool.bool_dec; try apply Pos.eq_dec.
Defined.

(** The number of distinct elements of a sequence. *)
Definition distinct (lst : list value) : Z :=
  Z.of_nat (List.length (nodup value_eq_dec lst)).

(** Modelled from the spec: [calc] is not among the sources; the
    entropy of an alphabet of [size] symbols is [0.0] for a size of 0 or
    1 and [log2(size)] otherwise.  [log2] is the base-2 logarithm as a
    float, which is left open. *)
Definition bits_of_size (log2 : Z -> spec_float) (size : Z) : spec_float :=
  if size <=? 1 then fzero else log2 size.

(** Modelled from the spec: [entropy_bits_of_alphabet], the formula above
    at the number of distinct elements. *)
Definition entropy_bits (log2 : Z -> spec_float) (lst : list value)
  : res value :=
  Ret (VFloat (bits_of_size log2 (distinct lst))).

(** Modelled from the spec: [entropy_bits_of_range(min, max)] counts the
    [max - min + 1] integers of the range and applies the formula of an
    alphabet to that count; it fails with [InvalidRange] if [max < min].
    The spec has integer ranges only: what the function does of a float
    bound is [float_range], left open. *)
Definition entropy_bits_nrange (log2 : Z -> spec_float)
    (float_range : value -> value -> res value) (lo hi : value)
  : res value :=
  if isinstance_int lo && isinstance_int hi
  then if int_of hi <? int_of lo
       then Raise InvalidRange
       else Ret (VFloat (bits_of_size log2 (int_of hi - int_of lo + 1)))
  else float_range lo hi.

End calc.

(** * Properties *)

(** ** The monad *)

Lemma bind_Ret {S A B} (m : M S A) (k : A -> M S B) s b s' :
  bind m k s = (Ret b, s') ->
  exists a s1, m s = (Ret a, s1) /\ k a s1 = (Ret b, s').
Proof.
  unfold bind. destruct (m s) as [[a|e|] s1]; intros H; try discriminate.
  exists a, s1. split; [reflexivity|assumption].
Qed.

Lemma bind_Raise {S A B} (m : M S A) (k : A -> M S B) s e s' :
  bind m k s = (Raise e, s') ->
  m s = (Raise e, s') \/ exists a s1, m s = (Ret a, s1) /\ k a s1 = (Raise e, s').
Proof.
  unfold bind. destruct (m s) as [[a|e0|] s1]; intros H; try discriminate.
  - right. exists a, s1. split; [reflexivity|assumption].
  - left. injection H as -> ->. reflexivity.
Qed.

Lemma bind_run {S A B} (m : M S A) (k : A -> M S B) s a s1 :
  m s = (Ret a, s1) -> bind m k s = k a s1.
Proof. unfold bind. intros ->. reflexivity. Qed.

(** ** The entropy source *)

Lemma urandom_run k s :
  urandom k s =
  (Ret (map (fun i => tape s (pos s + i)%nat mod 256) (seq 0 k)),
   mkEntropy (tape s) (pos s + k)).
Proof. reflexivity. Qed.

Lemma urandom_bytes k s bs s' :
  urandom k s = (Ret bs, s') ->
  List.length bs = k /\ Forall (fun b => 0 <= b < 256) bs.
Proof.
  rewrite urandom_run. intros H. injection H as <- _. split.
  - rewrite length_map, length_seq. reflexivity.
  - apply Forall_forall. intros b Hb. apply in_map_iff in Hb.
    destruct Hb as [i [<- _]]. apply Z.mod_pos_bound. lia.
Qed.

(** ** [random_below] *)

Lemma bit_length_pos n : 0 < n -> 0 < bit_length n.
Proof.
  intros Hn. unfold bit_length.
  destruct (Z.eqb_spec n 0); [lia|].
  pose proof (Z.log2_nonneg (Z.abs n)). lia.
Qed.

Lemma bit_length_nonneg n : 0 <= bit_length n.
Proof.
  unfold bit_length. destruct (Z.eqb_spec n 0); [lia|].
  pose proof (Z.log2_nonneg (Z.abs n)). lia.
Qed.

Lemma bit_length_bounds n :
  0 < n -> 2 ^ (bit_length n - 1) <= n < 2 ^ bit_length n.
Proof.
  intros Hn. unfold bit_length.
  destruct (Z.eqb_spec n 0); [lia|].
  rewrite Z.abs_eq by lia.
  replace (Z.log2 n + 1 - 1) with (Z.log2 n) by lia.
  replace (Z.log2 n + 1) with (Z.succ (Z.log2 n)) by lia.
  apply Z.log2_spec. assumption.
Qed.

Lemma draw_run n s :
  draw n s =
  (Ret (Z.land (int_from_bytes
                  (map (fun i => tape s (pos s + i)%nat mod 256)
                       (seq 0 (bytes_needed n))))
               (mask n)),
   mkEntropy (tape s) (pos s + bytes_needed n)).
Proof. reflexivity. Qed.

Lemma draw_masked n s r s' :
  draw n s = (Ret r, s') -> 0 <= r < 2 ^ bit_length n.
Proof.
  rewrite draw_run. intros H. injection H as <- _.
  unfold mask. rewrite Z.land_ones by apply bit_length_nonneg.
  apply Z.mod_pos_bound. apply Z.pow_pos_nonneg; [lia|apply bit_length_nonneg].
Qed.

Lemma random_below_unfold fuel n s :
  random_below (S fuel) n s =
  let r := Z.land (int_from_bytes
                     (map (fun i => tape s (pos s + i)%nat mod 256)
                          (seq 0 (bytes_needed n))))
                  (mask n) in
  if r <? n then (Ret r, mkEntropy (tape s) (pos s + bytes_needed n))
  else random_below fuel n (mkEntropy (tape s) (pos s + bytes_needed n)).
Proof.
  cbn [random_below]. unfold bind at 1. rewrite draw_run. cbv zeta.
  destruct (_ <? n); reflexivity.
Qed.

(** Whatever a rejection loop does, it reads the tape forwards and
    leaves the tape itself alone. *)
Lemma random_below_tape fuel n : forall s r s',
  random_below fuel n s = (r, s') ->
  tape s' = tape s /\ (pos s <= pos s')%nat.
Proof.
  induction fuel as [|fuel IH]; intros s r s' H.
  - cbn in H. injection H as _ <-. split; [reflexivity|lia].
  - rewrite random_below_unfold in H. cbv zeta in H.
    destruct (_ <? n).
    + injection H as _ <-. cbn. split; [reflexivity|lia].
    + apply IH in H. cbn in H. destruct H as [-> H]. split; [reflexivity|lia].
Qed.

Lemma random_below_range fuel n : forall s r s',
  random_below fuel n s = (Ret r, s') -> 0 <= r < n.
Proof.
  induction fuel as [|fuel IH]; intros s r s' H.
  - discriminate.
  - rewrite random_below_unfold in H. cbv zeta in H.
    destruct (Z.ltb_spec
                (Z.land (int_from_bytes
                           (map (fun i => tape s (pos s + i)%nat mod 256)
                                (seq 0 (bytes_needed n)))) (mask n)) n) as [Hlt|Hge].
    + injection H as <- _. split; [|assumption].
      apply Z.land_nonneg. right. unfold mask.
      rewrite Z.ones_equiv.
      pose proof (Z.pow_pos_nonneg 2 (bit_length n) ltac:(lia) (bit_length_nonneg n)).
      lia.
    + eapply IH; eassumption.
Qed.

Lemma random_below_no_raise fuel n : forall s e s',
  random_below fuel n s <> (Raise e, s').
Proof.
  induction fuel as [|fuel IH]; intros s e s' H.
  - discriminate.
  - rewrite random_below_unfold in H. cbv zeta in H.
    destruct (_ <? n); [discriminate|]. eapply IH; eassumption.
Qed.

(** More fuel never changes an answer already given. *)
Lemma random_below_more_fuel fuel n : forall s r s',
  random_below fuel n s = (Ret r, s') ->
  forall fuel', (fuel <= fuel')%nat -> random_below fuel' n s = (Ret r, s').
Proof.
  induction fuel as [|fuel IH]; intros s r s' H fuel' Hle.
  - discriminate.
  - destruct fuel' as [|fuel']; [lia|].
    rewrite random_below_unfold in *. cbv zeta in *.
    destruct (_ <? n); [assumption|].
    apply IH; [assumption|lia].
Qed.

(** ** [randbetween] and [randchoice] *)

Lemma randbetween_Ret fuel lo hi s r s' :
  randbetween fuel lo hi s = (Ret r, s') -> lo <= r <= hi.
Proof.
  unfold randbetween. destruct (_ && _); [|discriminate].
  intros H. apply bind_Ret in H. destruct H as (x & s1 & Hx & Hr).
  injection Hr as <- _. apply random_below_range in Hx. lia.
Qed.

Lemma randbetween_no_raise fuel lo hi s e s' :
  0 <= lo <= hi -> randbetween fuel lo hi s <> (Raise e, s').
Proof.
  intros Hr H. unfold randbetween in H.
  replace ((0 <=? lo) && (lo <=? hi)) with true in H
    by (symmetry; apply andb_true_iff; split; apply Z.leb_le; lia).
  apply bind_Raise in H. destruct H as [H | (x & s1 & _ & H)].
  - exact (random_below_no_raise _ _ _ _ _ H).
  - discriminate.
Qed.

Lemma randbetween_tape fuel lo hi s r s' :
  randbetween fuel lo hi s = (r, s') -> tape s' = tape s.
Proof.
  unfold randbetween. destruct (_ && _).
  - unfold bind. destruct (random_below _ _ s) as [[x|e|] s1] eqn:E;
      intros H; injection H as _ <-; exact (proj1 (random_below_tape _ _ _ _ _ E)).
  - intros H. injection H as _ <-. reflexivity.
Qed.

Lemma randbetween_total fuel lo hi t :
  0 <= lo <= hi -> productive fuel (hi - lo + 1) t ->
  forall p, exists r p',
    randbetween fuel lo hi (mkEntropy t p) = (Ret r, mkEntropy t p').
Proof.
  intros Hr Hp p. destruct (Hp p) as (x & p' & Hx).
  exists (lo + x), p'. unfold randbetween.
  replace ((0 <=? lo) && (lo <=? hi)) with true
    by (symmetry; apply andb_true_iff; split; apply Z.leb_le; lia).
  rewrite (bind_run _ _ _ _ _ Hx). reflexivity.
Qed.

Lemma randchoice_Ret {T} fuel (l : list T) s x s' :
  randchoice fuel l s = (Ret x, s') -> In x l.
Proof.
  unfold randchoice. destruct l as [|y l]; [discriminate|].
  intros H. apply bind_Ret in H. destruct H as (i & s1 & _ & H).
  destruct (nth_error (y :: l) (Z.to_nat i)) as [z|] eqn:E; [|discriminate].
  injection H as <- _. eapply nth_error_In; eassumption.
Qed.

Lemma randchoice_no_raise {T} fuel (l : list T) s e s' :
  l <> [] -> randchoice fuel l s <> (Raise e, s').
Proof.
  intros Hl H. unfold randchoice in H. destruct l as [|y l]; [congruence|].
  apply bind_Raise in H. destruct H as [H | (i & s1 & Hi & H)].
  - exact (random_below_no_raise _ _ _ _ _ H).
  - apply random_below_range in Hi.
    destruct (nth_error (y :: l) (Z.to_nat i)) as [z|] eqn:E; [discriminate|].
    apply nth_error_None in E. lia.
Qed.

Lemma randchoice_tape {T} fuel (l : list T) s r s' :
  randchoice fuel l s = (r, s') -> tape s' = tape s.
Proof.
  unfold randchoice. destruct l as [|y l].
  - intros H. injection H as _ <-. reflexivity.
  - unfold bind.
    destruct (random_below _ _ s) as [[i|e|] s1] eqn:E;
      [destruct (nth_error (y :: l) (Z.to_nat i))| |];
      intros H; injection H as _ <-; exact (proj1 (random_below_tape _ _ _ _ _ E)).
Qed.

Lemma randchoice_total {T} fuel (l : list T) t :
  l <> [] -> productive fuel (Z.of_nat (List.length l)) t ->
  forall p, exists x p',
    randchoice fuel l (mkEntropy t p) = (Ret x, mkEntropy t p').
Proof.
  intros Hl Hp p. destruct (Hp p) as (i & p' & Hi).
  pose proof (random_below_range _ _ _ _ _ Hi) as Hrange.
  destruct (nth_error l (Z.to_nat i)) as [z|] eqn:E.
  - exists z, p'. unfold randchoice. destruct l as [|y l]; [congruence|].
    rewrite (bind_run _ _ _ _ _ Hi). rewrite E. reflexivity.
  - apply nth_error_None in E. lia.
Qed.

(** ** The loops *)

Section Loops.

Context {S A : Type} (one : M S A).

Lemma append_draws_Ret (P : A -> Prop) :
  (forall s x s', one s = (Ret x, s') -> P x) ->
  forall k acc s l s',
    append_draws k one acc s = (Ret l, s') ->
    exists xs, l = acc ++ xs /\ List.length xs = k /\ Forall P xs.
Proof.
  intros HP. induction k as [|k IH]; intros acc s l s' H.
  - injection H as <- _. exists []. rewrite app_nil_r. auto.
  - cbn [append_draws] in H. apply bind_Ret in H.
    destruct H as (x & s1 & Hx & H). apply IH in H.
    destruct H as (xs & -> & Hlen & Hall). exists (x :: xs).
    rewrite <- app_assoc. cbn. repeat split; [lia|].
    constructor; [eapply HP; eassumption|assumption].
Qed.

Lemma append_draws_no_raise :
  (forall s e s', one s <> (Raise e, s')) ->
  forall k acc s e s', append_draws k one acc s <> (Raise e, s').
Proof.
  intros Hone. induction k as [|k IH]; intros acc s e s' H.
  - discriminate.
  - cbn [append_draws] in H. apply bind_Raise in H.
    destruct H as [H | (x & s1 & _ & H)].
    + exact (Hone _ _ _ H).
    + exact (IH _ _ _ _ H).
Qed.

Lemma append_draws_keeps {X} (f : S -> X) :
  (forall s r s', one s = (r, s') -> f s' = f s) ->
  forall k acc s r s', append_draws k one acc s = (r, s') -> f s' = f s.
Proof.
  intros Hone. induction k as [|k IH]; intros acc s r s' H.
  - injection H as _ <-. reflexivity.
  - cbn [append_draws] in H. unfold bind in H.
    destruct (one s) as [[x|e|] s1] eqn:E.
    + apply IH in H. rewrite H. eapply Hone; eassumption.
    + injection H as _ <-. eapply Hone; eassumption.
    + injection H as _ <-. eapply Hone; eassumption.
Qed.

Lemma append_draws_total (I : S -> Prop) :
  (forall s, I s -> exists x s', one s = (Ret x, s') /\ I s') ->
  forall k acc s, I s ->
    exists l s', append_draws k one acc s = (Ret l, s') /\ I s'.
Proof.
  intros Hone. induction k as [|k IH]; intros acc s Hs.
  - exists acc, s. split; [reflexivity|assumption].
  - destruct (Hone s Hs) as (x & s1 & Hx & Hs1).
    destruct (IH (acc ++ [x]) s1 Hs1) as (l & s' & Hl & Hs').
    exists l, s'. split; [|assumption].
    cbn [append_draws]. rewrite (bind_run _ _ _ _ _ Hx). assumption.
Qed.

End Loops.

Lemma Forall_image {A B} (f : A -> B) (Q : A -> Prop) (l : list B) :
  Forall (fun t => exists a, t = f a /\ Q a) l ->
  exists xs, l = map f xs /\ Forall Q xs.
Proof.
  induction 1 as [|t l (a & -> & Ha) _ (xs & -> & Hxs)].
  - exists []. auto.
  - exists (a :: xs). split; [reflexivity|constructor; assumption].
Qed.

(** What the entropy source is left with never shows in the object. *)
Lemma on_os_run {A} (m : M entropy A) (o : Passphrase) (e : entropy) :
  on_os m (o, e) = (fst (m e), (o, snd (m e))).
Proof. unfold on_os. cbn. destruct (m e). reflexivity. Qed.

Lemma on_os_keeps {A} (m : M entropy A) :
  (forall s r s', m s = (r, s') -> tape s' = tape s) ->
  forall (w : world) r w',
    on_os m w = (r, w') -> (fst w', tape (snd w')) = (fst w, tape (snd w)).
Proof.
  intros Hm [o e] r w'. rewrite on_os_run. intros H. injection H as _ <-.
  cbn. f_equal. destruct (m e) as [x e'] eqn:E. cbn. eapply Hm; eassumption.
Qed.

Lemma append_draws_on_os {A} (m : M entropy A) (o : Passphrase) :
  forall k acc e,
    append_draws k (on_os m) acc (o, e) =
    (fst (append_draws k m acc e), (o, snd (append_draws k m acc e))).
Proof.
  induction k as [|k IH]; intros acc e.
  - reflexivity.
  - cbn [append_draws]. unfold bind. rewrite on_os_run.
    destruct (m e) as [[x|ex|] e1]; cbn [fst snd]; [apply IH|reflexivity..].
Qed.

(** ** [generate] *)

Section Generate.

Variables MIN_NUM MAX_NUM : Z.
Variable fuel : nat.

Lemma generate_run self os :
  generate MIN_NUM MAX_NUM fuel (self, os) =
  if Z.of_nat (List.length (wordlist self)) <? 1
  then (Raise (ValueError "wordlist can't be empty"), (self, os))
  else
    match append_draws (Z.to_nat (amount_w self))
            (draw_word fuel (wordlist self)) [] os with
    | (Ret p1, e1) =>
        match append_draws (Z.to_nat (amount_n self))
                (draw_number MIN_NUM MAX_NUM fuel) p1 e1 with
        | (Ret p2, e2) => (Ret p2, (with_last_result (Some p2) self, e2))
        | (Raise e, e2) => (Raise e, (self, e2))
        | (Starved, e2) => (Starved, (self, e2))
        end
    | (Raise e, e1) => (Raise e, (self, e1))
    | (Starved, e1) => (Starved, (self, e1))
    end.
Proof.
  unfold generate. unfold bind at 1. cbn [on_self get fst snd].
  destruct (_ <? 1); [reflexivity|].
  unfold bind at 1. rewrite append_draws_on_os.
  fold (draw_word fuel (wordlist self)).
  destruct (append_draws _ (draw_word fuel (wordlist self)) [] os) as [[p1|e|] e1];
    cbn [fst snd]; [|reflexivity..].
  unfold bind at 1. rewrite append_draws_on_os.
  fold (draw_number MIN_NUM MAX_NUM fuel).
  destruct (append_draws _ (draw_number MIN_NUM MAX_NUM fuel) p1 e1) as [[p2|e|] e2];
    cbn [fst snd]; reflexivity.
Qed.

Lemma generate_password_run self os :
  generate_password fuel (self, os) =
  match append_draws (Z.to_nat (passwordlen self))
          (draw_word fuel characters) [] os with
  | (Ret p, e1) => (Ret p, (with_last_result (Some p) self, e1))
  | (Raise e, e1) => (Raise e, (self, e1))
  | (Starved, e1) => (Starved, (self, e1))
  end.
Proof.
  unfold generate_password. unfold bind at 1. cbn [on_self get fst snd].
  unfold bind at 1. rewrite append_draws_on_os.
  fold characters. fold (draw_word fuel characters).
  destruct (append_draws _ (draw_word fuel characters) [] os) as [[p|e|] e1];
    cbn [fst snd]; reflexivity.
Qed.

Lemma draw_word_Ret l s t s' :
  draw_word fuel l s = (Ret t, s') -> exists w, t = TStr w /\ In w l.
Proof.
  intros H. apply bind_Ret in H. destruct H as (w & s1 & Hw & H).
  injection H as <- _. exists w. split; [reflexivity|].
  eapply randchoice_Ret; eassumption.
Qed.

Lemma draw_word_no_raise l s e s' :
  l <> [] -> draw_word fuel l s <> (Raise e, s').
Proof.
  intros Hl H. apply bind_Raise in H. destruct H as [H | (w & s1 & _ & H)].
  - exact (randchoice_no_raise _ _ _ _ _ Hl H).
  - discriminate.
Qed.

Lemma draw_word_total l t :
  l <> [] -> productive fuel (Z.of_nat (List.length l)) t ->
  forall s, tape s = t ->
    exists x s', draw_word fuel l s = (Ret x, s') /\ tape s' = t.
Proof.
  intros Hl Hp [t0 p] Ht. cbn in Ht. subst t0.
  destruct (randchoice_total fuel l t Hl Hp p) as (w & p' & Hw).
  exists (TStr w), (mkEntropy t p'). split; [|reflexivity].
  unfold draw_word. rewrite (bind_run _ _ _ _ _ Hw). reflexivity.
Qed.

Lemma draw_number_Ret s t s' :
  draw_number MIN_NUM MAX_NUM fuel s = (Ret t, s') ->
  exists n, t = TInt n /\ MIN_NUM <= n <= MAX_NUM.
Proof.
  intros H. apply bind_Ret in H. destruct H as (n & s1 & Hn & H).
  injection H as <- _. exists n. split; [reflexivity|].
  eapply randbetween_Ret; eassumption.
Qed.

Lemma draw_number_no_raise s e s' :
  0 <= MIN_NUM <= MAX_NUM -> draw_number MIN_NUM MAX_NUM fuel s <> (Raise e, s').
Proof.
  intros Hr H. apply bind_Raise in H. destruct H as [H | (w & s1 & _ & H)].
  - exact (randbetween_no_raise _ _ _ _ _ _ Hr H).
  - discriminate.
Qed.

Lemma draw_number_total t :
  0 <= MIN_NUM <= MAX_NUM -> productive fuel (MAX_NUM - MIN_NUM + 1) t ->
  forall s, tape s = t ->
    exists x s', draw_number MIN_NUM MAX_NUM fuel s = (Ret x, s') /\ tape s' = t.
Proof.
  intros Hr Hp [t0 p] Ht. cbn in Ht. subst t0.
  destruct (randbetween_total fuel _ _ t Hr Hp p) as (n & p' & Hn).
  exists (TInt n), (mkEntropy t p'). split; [|reflexivity].
  unfold draw_number. rewrite (bind_run _ _ _ _ _ Hn). reflexivity.
Qed.

(** Whenever [generate] returns, the tokens are words of the word list
    followed by numbers of the range of [settings]. *)
Lemma generate_Ret self os tokens w' :
  generate MIN_NUM MAX_NUM fuel (self, os) = (Ret tokens, w') ->
  exists words numbers,
    tokens = map TStr words ++ map TInt numbers /\
    List.length words = Z.to_nat (amount_w self) /\
    List.length numbers = Z.to_nat (amount_n self) /\
    Forall (fun w => In w (wordlist self)) words /\
    Forall (fun n => MIN_NUM <= n <= MAX_NUM) numbers /\
    fst w' = with_last_result (Some tokens) self.
Proof.
  rewrite generate_run. destruct (_ <? 1); [discriminate|].
  destruct (append_draws _ (draw_word fuel _) [] os) as [[p1|e|] e1] eqn:E1;
    try discriminate.
  destruct (append_draws _ (draw_number MIN_NUM MAX_NUM fuel) p1 e1)
    as [[p2|e|] e2] eqn:E2;
    try discriminate.
  intros H. injection H as <- <-.
  apply (append_draws_Ret _ _ (draw_word_Ret (wordlist self))) in E1.
  destruct E1 as (xs & -> & Hxs & Pxs). cbn [app] in E2.
  apply (append_draws_Ret _ _ draw_number_Ret) in E2.
  destruct E2 as (ys & -> & Hys & Pys).
  apply Forall_image in Pxs. destruct Pxs as (words & -> & Hwords).
  apply Forall_image in Pys. destruct Pys as (numbers & -> & Hnumbers).
  exists words, numbers. rewrite length_map in Hxs, Hys.
  repeat split; assumption.
Qed.

Lemma generate_no_raise self os e w' :
  wordlist self <> [] -> 0 <= MIN_NUM <= MAX_NUM ->
  generate MIN_NUM MAX_NUM fuel (self, os) <> (Raise e, w').
Proof.
  intros Hl Hr. rewrite generate_run.
  destruct (Z.ltb_spec (Z.of_nat (List.length (wordlist self))) 1) as [Hlen|_].
  { destruct (wordlist self); [congruence|cbn in Hlen; lia]. }
  destruct (append_draws _ (draw_word fuel _) [] os) as [[p1|e1|] s1] eqn:E1.
  - destruct (append_draws _ (draw_number MIN_NUM MAX_NUM fuel) p1 s1)
      as [[p2|e2|] s2] eqn:E2;
      try discriminate.
    exfalso. revert E2. apply append_draws_no_raise.
    intros s e0 s'. apply draw_number_no_raise. assumption.
  - exfalso. revert E1. apply append_draws_no_raise.
    intros s e0 s'. apply draw_word_no_raise. assumption.
  - discriminate.
Qed.

Lemma generate_total self os :
  wordlist self <> [] -> 0 <= MIN_NUM <= MAX_NUM ->
  productive fuel (Z.of_nat (List.length (wordlist self))) (tape os) ->
  productive fuel (MAX_NUM - MIN_NUM + 1) (tape os) ->
  exists tokens os',
    generate MIN_NUM MAX_NUM fuel (self, os) =
    (Ret tokens, (with_last_result (Some tokens) self, os')).
Proof.
  intros Hl Hr Hpw Hpn. rewrite generate_run.
  destruct (Z.ltb_spec (Z.of_nat (List.length (wordlist self))) 1) as [Hlen|_].
  { destruct (wordlist self); [congruence|cbn in Hlen; lia]. }
  destruct (append_draws_total (draw_word fuel (wordlist self))
              (fun s => tape s = tape os)
              (fun s Hs => draw_word_total _ _ Hl Hpw s Hs)
              (Z.to_nat (amount_w self)) [] os eq_refl) as (p1 & e1 & -> & He1).
  destruct (append_draws_total (draw_number MIN_NUM MAX_NUM fuel)
              (fun s => tape s = tape os)
              (fun s Hs => draw_number_total _ Hr Hpn s Hs)
              (Z.to_nat (amount_n self)) p1 e1 He1) as (p2 & e2 & -> & He2).
  exists p2, e2. reflexivity.
Qed.

Lemma generate_password_Ret self os tokens w' :
  generate_password fuel (self, os) = (Ret tokens, w') ->
  exists chars,
    tokens = map TStr chars /\
    List.length chars = Z.to_nat (passwordlen self) /\
    Forall (fun c => In c characters) chars /\
    fst w' = with_last_result (Some tokens) self.
Proof.
  rewrite generate_password_run.
  destruct (append_draws _ (draw_word fuel _) [] os) as [[p1|e|] e1] eqn:E1;
    try discriminate.
  intros H. injection H as <- <-.
  apply (append_draws_Ret _ _ (draw_word_Ret characters)) in E1.
  destruct E1 as (xs & -> & Hxs & Pxs). cbn [app].
  apply Forall_image in Pxs. destruct Pxs as (chars & -> & Hchars).
  exists chars. rewrite length_map in Hxs. repeat split; assumption.
Qed.

Lemma characters_nonempty : characters <> [].
Proof. discriminate. Qed.

Lemma generate_password_no_raise self os e w' :
  generate_password fuel (self, os) <> (Raise e, w').
Proof.
  rewrite generate_password_run.
  destruct (append_draws _ (draw_word fuel _) [] os) as [[p1|e1|] s1] eqn:E1;
    try discriminate.
  exfalso. revert E1. apply append_draws_no_raise.
  intros s e0 s'. apply draw_word_no_raise. exact characters_nonempty.
Qed.

Lemma generate_password_total self os :
  productive fuel (Z.of_nat (List.length characters)) (tape os) ->
  exists tokens os',
    generate_password fuel (self, os) =
    (Ret tokens, (with_last_result (Some tokens) self, os')).
Proof.
  intros Hp. rewrite generate_password_run.
  destruct (append_draws_total (draw_word fuel characters)
              (fun s => tape s = tape os)
              (fun s Hs => draw_word_total _ _ characters_nonempty Hp s Hs)
              (Z.to_nat (passwordlen self)) [] os eq_refl) as (p1 & e1 & -> & He1).
  exists p1, e1. reflexivity.
Qed.

End Generate.

(** ** Tapes that never make a loop wait *)

Lemma int_from_bytes_zeros {A} (l : list A) :
  int_from_bytes (map (fun _ => 0) l) = 0.
Proof.
  unfold int_from_bytes. induction l as [|x l IH]; [reflexivity|exact IH].
Qed.

Lemma random_below_zeros n p :
  0 < n ->
  random_below 1 n (mkEntropy zeros p) =
  (Ret 0, mkEntropy zeros (p + bytes_needed n)).
Proof.
  intros Hn. rewrite random_below_unfold. cbn [tape pos]. unfold zeros.
  change (map (fun i : nat => 0 mod 256) (seq 0 (bytes_needed n)))
    with (map (fun _ : nat => 0) (seq 0 (bytes_needed n))).
  rewrite int_from_bytes_zeros. cbv zeta. rewrite Z.land_0_l.
  destruct (Z.ltb_spec 0 n); [reflexivity|lia].
Qed.

Lemma zeros_productive n : 0 < n -> productive 1 n zeros.
Proof.
  intros Hn p. exists 0, (p + bytes_needed n)%nat.
  apply random_below_zeros. assumption.
Qed.

(** ** The claims about generation *)

(** C2.  With a word list that is not empty (and counts that are not
    negative, as the setters guarantee, and a valid range in
    [settings]), [generate] never raises; whenever it returns, the
    tokens are [amount_w] words of the word list followed by [amount_n]
    numbers, [amount_w + amount_n] tokens in all, and the very same
    sequence is stored in [last_result]; and it does return on every
    tape on which the rejection loops of its two kinds of draw end. *)
Theorem generate_passphrase (MIN_NUM MAX_NUM : Z) (fuel : nat)
    (self : Passphrase) (os : entropy) :
  wordlist self <> [] ->
  0 <= amount_w self -> 0 <= amount_n self ->
  0 <= MIN_NUM <= MAX_NUM ->
  (forall tokens w',
      generate MIN_NUM MAX_NUM fuel (self, os) = (Ret tokens, w') ->
      passphrase_of self tokens /\
      Z.of_nat (List.length tokens) = amount_w self + amount_n self /\
      fst w' = with_last_result (Some tokens) self) /\
  (forall e w', generate MIN_NUM MAX_NUM fuel (self, os) <> (Raise e, w')) /\
  (productive fuel (Z.of_nat (List.length (wordlist self))) (tape os) ->
   productive fuel (MAX_NUM - MIN_NUM + 1) (tape os) ->
   exists tokens os',
     generate MIN_NUM MAX_NUM fuel (self, os) =
     (Ret tokens, (with_last_result (Some tokens) self, os'))).
Proof.
  intros Hl Hw Hn Hr. split; [|split].
  - intros tokens w' H. apply generate_Ret in H.
    destruct H as (words & numbers & -> & Hlw & Hln & Hin & _ & Hlast).
    split; [|split; [|assumption]].
    + exists words, numbers. repeat split; [lia|lia|assumption].
    + rewrite length_app, !length_map. lia.
  - intros e w'. apply generate_no_raise; assumption.
  - intros Hpw Hpn. apply generate_total; assumption.
Qed.

Lemma generate_passphrase_witness :
  wordlist (with_amount_n 2 (sample four_words)) <> [] /\
  0 <= amount_w (with_amount_n 2 (sample four_words)) /\
  0 <= amount_n (with_amount_n 2 (sample four_words)) /\
  0 <= 0 <= 10000 /\
  exists tokens os',
    generate 0 10000 1 (with_amount_n 2 (sample four_words), mkEntropy zeros 0) =
    (Ret tokens,
     (with_last_result (Some tokens) (with_amount_n 2 (sample four_words)), os')) /\
    Z.of_nat (List.length tokens) = 8.
Proof.
  assert (Hl : wordlist (with_amount_n 2 (sample four_words)) <> [])
    by discriminate.
  assert (Hw : 0 <= amount_w (with_amount_n 2 (sample four_words)))
    by (cbn; lia).
  assert (Hn : 0 <= amount_n (with_amount_n 2 (sample four_words)))
    by (cbn; lia).
  assert (Hr : 0 <= 0 <= 10000) by lia.
  repeat split; try assumption; try lia.
  destruct (generate_passphrase 0 10000 1 _ (mkEntropy zeros 0) Hl Hw Hn Hr)
    as (Hret & _ & Htot).
  destruct Htot as (tokens & os' & Hrun).
  - apply zeros_productive. cbn. lia.
  - apply zeros_productive. lia.
  - exists tokens, os'. split; [exact Hrun|].
    exact (proj1 (proj2 (Hret _ _ Hrun))).
Defined.

(** C3.  On an empty word list [generate] raises the [ValueError] the
    specification calls [EmptyAlphabet]; nothing has been read from the
    entropy source and the object, [last_result] included, is as it
    was. *)
Theorem generate_empty_wordlist (MIN_NUM MAX_NUM : Z) (fuel : nat)
    (self : Passphrase) (os : entropy) :
  wordlist self = [] ->
  generate MIN_NUM MAX_NUM fuel (self, os) =
  (Raise (ValueError "wordlist can't be empty"), (self, os)).
Proof.
  intros Hl. rewrite generate_run, Hl. reflexivity.
Qed.

Lemma generate_empty_wordlist_witness :
  wordlist (sample []) = [] /\
  generate 0 10000 3 (sample [], tape_of [7; 7; 7]) =
  (Raise (ValueError "wordlist can't be empty"), (sample [], tape_of [7; 7; 7])).
Proof.
  split; [reflexivity|].
  apply (generate_empty_wordlist 0 10000 3 (sample []) (tape_of [7; 7; 7])).
  reflexivity.
Defined.

(** C1.  The numbers [generate] appends come from the range of
    [settings], whatever [randnum_min] and [randnum_max] hold: with the
    range of the object set to 1..6 and that of [settings] to 0..10000,
    the tape below makes [generate] return the number 9999. *)
Theorem generate_number_outside_configured_range :
  randnum_min die = 1 /\ randnum_max die = 6 /\ amount_n die = 1 /\
  fst (generate 0 10000 3 (die, tape_of [0; 255; 255; 39; 15])) =
  Ret [TStr "correct"; TInt 9999] /\
  ~ (randnum_min die <= 9999 <= randnum_max die).
Proof.
  repeat split; try reflexivity. cbn. lia.
Qed.

(** What [generate] does by construction: its numbers lie in the range
    of [settings], and the range of the object plays no part. *)
Lemma generate_numbers_in_settings_range MIN_NUM MAX_NUM fuel self os tokens w' :
  generate MIN_NUM MAX_NUM fuel (self, os) = (Ret tokens, w') ->
  forall n, In (TInt n) tokens -> MIN_NUM <= n <= MAX_NUM.
Proof.
  intros H n Hin. apply generate_Ret in H.
  destruct H as (words & numbers & -> & _ & _ & _ & Hnum & _).
  apply in_app_or in Hin. destruct Hin as [Hin|Hin].
  - apply in_map_iff in Hin. destruct Hin as (w & Hw & _). discriminate.
  - apply in_map_iff in Hin. destruct Hin as (m & Hm & Hin).
    injection Hm as <-. rewrite Forall_forall in Hnum. auto.
Qed.

Lemma generate_ignores_randnum MIN_NUM MAX_NUM fuel self os lo hi :
  fst (generate MIN_NUM MAX_NUM fuel
         (with_randnum_min lo (with_randnum_max hi self), os)) =
  fst (generate MIN_NUM MAX_NUM fuel (self, os)).
Proof.
  rewrite !generate_run. cbn [wordlist amount_w amount_n with_randnum_min
    with_randnum_max _wordlist _amount_w _amount_n].
  destruct (_ <? 1); [reflexivity|].
  destruct (append_draws _ _ [] os) as [[p1|e|] e1]; [|reflexivity..].
  destruct (append_draws _ _ p1 e1) as [[p2|e|] e2]; reflexivity.
Qed.

(** Whatever the range of [settings] is, an object asks for a number
    above it and [generate] hands out one inside it. *)
Lemma generate_number_outside_any_range MIN_NUM MAX_NUM :
  0 <= MIN_NUM <= MAX_NUM ->
  fst (generate MIN_NUM MAX_NUM 1
         (with_randnum_min (MAX_NUM + 1) (with_randnum_max (MAX_NUM + 1) die),
          mkEntropy zeros 0)) =
  Ret [TStr "correct"; TInt MIN_NUM] /\
  ~ (MAX_NUM + 1 <= MIN_NUM <= MAX_NUM + 1).
Proof.
  intros Hr. split; [|lia].
  rewrite generate_ignores_randnum, generate_run.
  change (Z.of_nat (List.length (wordlist die)) <? 1) with false. cbv iota.
  change (append_draws (Z.to_nat (amount_w die)) (draw_word 1 (wordlist die))
            [] (mkEntropy zeros 0))
    with (Ret [TStr "correct"], mkEntropy zeros 1).
  change (Z.to_nat (amount_n die)) with 1%nat.
  cbn [append_draws]. unfold bind at 1. unfold draw_number at 1.
  unfold bind at 1. unfold randbetween.
  replace ((0 <=? MIN_NUM) && (MIN_NUM <=? MAX_NUM)) with true
    by (symmetry; apply andb_true_iff; split; apply Z.leb_le; lia).
  unfold bind at 1. rewrite random_below_zeros by lia.
  cbn. rewrite Z.add_0_r. reflexivity.
Qed.

Lemma characters_count : List.length characters = 94%nat.
Proof. reflexivity. Qed.

Lemma characters_NoDup : NoDup characters.
Proof.
  apply (NoDup_count_occ' string_dec). intros c Hc.
  repeat (destruct Hc as [<-|Hc]; [reflexivity|]). destruct Hc.
Qed.

(** C4.  [generate_password] never raises; whenever it returns, the
    tokens are [passwordlen] characters of the alphabet made of the
    digits, then the letters, then the punctuation, 94 distinct symbols,
    and the same sequence is stored in [last_result]; it returns on every
    tape on which the rejection loop below 94 ends; and the word list of
    the object plays no part in the outcome. *)
Theorem generate_password_characters (fuel : nat) (self : Passphrase)
    (os : entropy) :
  0 <= passwordlen self ->
  (forall tokens w',
      generate_password fuel (self, os) = (Ret tokens, w') ->
      password_of self tokens /\
      Z.of_nat (List.length tokens) = passwordlen self /\
      fst w' = with_last_result (Some tokens) self) /\
  (forall e w', generate_password fuel (self, os) <> (Raise e, w')) /\
  (productive fuel 94 (tape os) ->
   exists tokens os',
     generate_password fuel (self, os) =
     (Ret tokens, (with_last_result (Some tokens) self, os'))) /\
  (characters = digits ++ ascii_letters ++ punctuation /\
   List.length characters = 94%nat /\ NoDup characters) /\
  (forall words ext,
      fst (generate_password fuel (with_wordlist words ext self, os)) =
      fst (generate_password fuel (self, os))).
Proof.
  intros Hlen. split; [|split; [|split; [|split]]].
  - intros tokens w' H. apply generate_password_Ret in H.
    destruct H as (chars & -> & Hl & Hin & Hlast).
    split; [|split; [|assumption]].
    + exists chars. repeat split; [lia|assumption].
    + rewrite length_map. lia.
  - intros e w'. apply generate_password_no_raise.
  - intros Hp. apply generate_password_total. exact Hp.
  - split; [reflexivity|]. split; [exact characters_count|exact characters_NoDup].
  - intros words ext. rewrite !generate_password_run.
    cbn [passwordlen with_wordlist _passwordlen].
    destruct (append_draws _ _ [] os) as [[p|e|] e1]; reflexivity.
Qed.

Lemma generate_password_characters_witness :
  0 <= passwordlen (sample []) /\
  exists tokens os',
    generate_password 1 (sample [], mkEntropy zeros 0) =
    (Ret tokens, (with_last_result (Some tokens) (sample []), os')) /\
    Z.of_nat (List.length tokens) = 12.
Proof.
  assert (H : 0 <= passwordlen (sample [])) by (cbn; lia).
  split; [exact H|].
  destruct (generate_password_characters 1 (sample []) (mkEntropy zeros 0) H)
    as (Hret & _ & Htot & _).
  destruct Htot as (tokens & os' & Hrun).
  - apply zeros_productive. lia.
  - exists tokens, os'. split; [exact Hrun|].
    exact (proj1 (proj2 (Hret _ _ Hrun))).
Defined.

(** ** The setters *)

Lemma lt_zero_int v :
  isinstance_int v = true -> lt_zero v = (int_of v <? 0).
Proof. destruct v; try discriminate; reflexivity. Qed.

Lemma set_int_rejects (name1 name2 : string) (store : Z -> Passphrase -> Passphrase)
    (v : value) (self : Passphrase) :
  isinstance_int v = false \/ lt_zero v = true ->
  exists e,
    InvalidConfiguration e = true /\
    (if negb (isinstance_int v) then raise (TypeError name1)
     else if int_of v <? 0 then raise (ValueError name2)
     else modify (store (int_of v))) self = (Raise e, self).
Proof.
  intros H. destruct (isinstance_int v) eqn:Ei; cbn [negb].
  - destruct H as [H|H]; [discriminate|].
    rewrite <- (lt_zero_int v Ei), H.
    exists (ValueError name2). split; reflexivity.
  - exists (TypeError name1). split; reflexivity.
Qed.

(** C6, as the code has it.  Assigning to a numeric field a value that
    is not of the class its setter asks for (an [int], a [bool] being
    one; an [int] or a [float] for [entropy_bits_req]) or that is
    negative raises a [TypeError] or a [ValueError], the failures the
    specification calls [InvalidConfiguration], and leaves the object as
    it was.  [entropy_bits_req] accepts every float that is not below
    zero as it is, and every int that is not below zero and whose
    nearest binary64 number is finite, which it stores as that float;
    on a larger int [float()] raises [OverflowError] and the object is
    as it was. *)
Theorem assign_validated (f : field) (v : value) (self : Passphrase) :
  (accepts_type f v = false \/ lt_zero v = true ->
   exists e, InvalidConfiguration e = true /\ assign f v self = (Raise e, self)) /\
  (accepts_type F_entropy_bits_req v = true -> lt_zero v = false ->
   match to_float v with
   | inr x =>
       assign F_entropy_bits_req v self =
       (Ret tt, with_entropy_bits_req (VFloat x) self)
   | inl e =>
       isinstance_int v = true /\
       (exists msg, e = OverflowError msg) /\
       assign F_entropy_bits_req v self = (Raise e, self)
   end) /\
  (forall x, v = VFloat x -> to_float v = inr x).
Proof.
  split; [|split].
  - intros H. destruct f; cbn [assign accepts_type] in *;
      try (apply set_int_rejects; exact H).
    unfold set_entropy_bits_req.
    destruct (isinstance_number v) eqn:En; cbn [negb].
    + destruct H as [H|H]; [discriminate|]. rewrite H.
      exists (ValueError "entropy_bits_req should be greater than 0").
      split; reflexivity.
    + exists (TypeError "entropy_bits_req can only be int or float").
      split; reflexivity.
  - cbn [assign accepts_type]. intros Hn Hz. unfold set_entropy_bits_req.
    rewrite Hn, Hz. cbn [negb].
    destruct v as [|b|z|x|s]; try discriminate; cbn [to_float].
    + destruct (nearest_float (int_of (VBool b))); try reflexivity.
      split; [reflexivity|]. split; [eexists|]; reflexivity.
    + destruct (nearest_float (int_of (VInt z))); try reflexivity.
      split; [reflexivity|]. split; [eexists|]; reflexivity.
    + reflexivity.
  - intros x ->. reflexivity.
Qed.

Lemma assign_validated_witness :
  (accepts_type F_amount_w (VInt (-1)) = false \/ lt_zero (VInt (-1)) = true) /\
  (exists e, InvalidConfiguration e = true /\
             assign F_amount_w (VInt (-1)) (sample four_words) =
             (Raise e, sample four_words)) /\
  accepts_type F_entropy_bits_req (VInt 77) = true /\
  lt_zero (VInt 77) = false /\
  assign F_entropy_bits_req (VInt 77) (sample four_words) =
  (Ret tt, with_entropy_bits_req
             (VFloat (S754_finite false 5418393301680128 (-46)))
             (sample four_words)).
Proof.
  assert (H1 : accepts_type F_amount_w (VInt (-1)) = false \/
               lt_zero (VInt (-1)) = true) by (right; reflexivity).
  split; [exact H1|]. split.
  - exact (proj1 (assign_validated F_amount_w (VInt (-1)) (sample four_words)) H1).
  - split; [reflexivity|]. split; [reflexivity|].
    pose proof (proj1 (proj2 (assign_validated F_entropy_bits_req (VInt 77)
                                (sample four_words))) eq_refl eq_refl) as H.
    change (to_float (VInt 77))
      with (@inr exn _ (S754_finite false 5418393301680128 (-46))) in H.
    exact H.
Defined.

(** C6, as it is written, fails: [2 ** 1024] is an int that is not
    negative, and assigning it to [entropy_bits_req] is not accepted. *)
Lemma assign_entropy_bits_req_huge_int :
  accepts_type F_entropy_bits_req (VInt (2 ^ 1024)) = true /\
  lt_zero (VInt (2 ^ 1024)) = false /\
  assign F_entropy_bits_req (VInt (2 ^ 1024)) (sample four_words) =
  (Raise (OverflowError "int too large to convert to float"), sample four_words) /\
  ~ (exists x,
       assign F_entropy_bits_req (VInt (2 ^ 1024)) (sample four_words) =
       (Ret tt, with_entropy_bits_req (VFloat x) (sample four_words))).
Proof.
  assert (E : assign F_entropy_bits_req (VInt (2 ^ 1024)) (sample four_words) =
              (Raise (OverflowError "int too large to convert to float"),
               sample four_words)) by (vm_compute; reflexivity).
  repeat split; try reflexivity; try exact E.
  intros [x Hx]. rewrite E in Hx. discriminate.
Qed.

(** ** Rendering *)

Local Open Scope string_scope.

Lemma append_assoc (a b c : string) : (a ++ b) ++ c = a ++ (b ++ c).
Proof. induction a as [|x a IH]; cbn; [reflexivity|f_equal; exact IH]. Qed.

Lemma append_nil_r (a : string) : a ++ "" = a.
Proof. induction a as [|x a IH]; cbn; [reflexivity|f_equal; exact IH]. Qed.

Lemma length_append (a b : string) :
  String.length (a ++ b) = (String.length a + String.length b)%nat.
Proof. induction a as [|x a IH]; cbn; [reflexivity|f_equal; exact IH]. Qed.

Lemma substring_prefix (a b : string) :
  substring 0 (String.length a) (a ++ b) = a.
Proof.
  induction a as [|x a IH]; cbn.
  - destruct b; reflexivity.
  - f_equal. exact IH.
Qed.

Lemma drop_last_append (a b : string) : drop_last (String.length b) (a ++ b) = a.
Proof.
  unfold drop_last. rewrite length_append.
  replace (String.length a + String.length b - String.length b)%nat
    with (String.length a) by lia.
  apply substring_prefix.
Qed.

(** Each word followed by the separator, all in a row, is the words
    joined by the separator followed by one more separator. *)
Lemma concat_trailing (sep : string) (l : list string) :
  l <> [] ->
  String.concat "" (map (fun w => w ++ sep) l) = String.concat sep l ++ sep.
Proof.
  induction l as [|x l IH]; [congruence|]. intros _.
  destruct l as [|y l].
  - reflexivity.
  - change (String.concat "" (map (fun w => w ++ sep) (x :: y :: l)))
      with ((x ++ sep) ++ "" ++ String.concat "" (map (fun w => w ++ sep) (y :: l))).
    rewrite IH by discriminate.
    change (String.concat sep (x :: y :: l))
      with (x ++ sep ++ String.concat sep (y :: l)).
    cbn ["++"%string]. rewrite !append_assoc. reflexivity.
Qed.

Lemma concat_no_separator (l : list string) :
  String.concat "" (map (fun w => w ++ "") l) = String.concat "" l.
Proof.
  f_equal. rewrite <- (map_id l) at 2. apply map_ext. apply append_nil_r.
Qed.

Lemma length_pos_iff (s : string) : (0 <? String.length s)%nat = true <-> s <> "".
Proof.
  destruct s; cbn; split; intros H; try discriminate; try congruence;
    reflexivity.
Qed.

(** C8.  With a result that is not empty and a separator that is not
    empty, the rendering is the textual forms of the tokens joined by the
    separator, with no separator after the last. *)
Theorem str_joins_tokens (self : Passphrase) (result : list token) :
  last_result self = Some result ->
  result <> [] ->
  separator self <> "" ->
  __str__ self = String.concat (separator self) (map str result).
Proof.
  intros Hr Hne Hsep. unfold __str__. rewrite Hr.
  rewrite (proj2 (length_pos_iff _) Hsep).
  rewrite concat_trailing by (destruct result; [congruence|discriminate]).
  apply drop_last_append.
Qed.

Lemma str_joins_tokens_witness :
  last_result (with_separator "-"
                 (with_last_result (Some (map TStr four_words)) (sample four_words))) =
  Some (map TStr four_words) /\
  map TStr four_words <> [] /\
  "-" <> "" /\
  __str__ (with_separator "-"
             (with_last_result (Some (map TStr four_words)) (sample four_words))) =
  "correct-horse-battery-staple".
Proof.
  split; [reflexivity|]. split; [discriminate|]. split; [discriminate|].
  apply (str_joins_tokens
           (with_separator "-"
              (with_last_result (Some (map TStr four_words)) (sample four_words)))
           (map TStr four_words)).
  - reflexivity.
  - discriminate.
  - discriminate.
Defined.

(** C10.  The rendering is defined on the edge cases: it is the empty
    string on an empty result (and on [None]), and with an empty
    separator it is the textual forms of the tokens one after the other,
    nothing cut from the end. *)
Theorem str_edge_cases (self : Passphrase) :
  (last_result self = Some [] -> __str__ self = "") /\
  (last_result self = None -> __str__ self = "") /\
  (forall result,
      last_result self = Some result -> separator self = "" ->
      __str__ self = String.concat "" (map str result)).
Proof.
  split; [|split].
  - intros H. unfold __str__. rewrite H. cbn [map String.concat].
    destruct (0 <? String.length (separator self))%nat; reflexivity.
  - intros H. unfold __str__. rewrite H. reflexivity.
  - intros result H Hsep. unfold __str__. rewrite H, Hsep.
    cbn [String.length Nat.ltb Nat.leb]. apply concat_no_separator.
Qed.

Lemma str_edge_cases_witness :
  last_result (sample four_words) = Some [] /\
  __str__ (sample four_words) = "" /\
  separator (with_separator "" (with_last_result
               (Some [TStr "correct"; TInt 42; TStr "staple"]) (sample four_words))) = "" /\
  __str__ (with_separator "" (with_last_result
             (Some [TStr "correct"; TInt 42; TStr "staple"]) (sample four_words))) =
  "correct42staple".
Proof.
  split; [reflexivity|]. split.
  - exact (proj1 (str_edge_cases (sample four_words)) eq_refl).
  - split; [reflexivity|].
    exact (proj2 (proj2 (str_edge_cases
             (with_separator "" (with_last_result
                (Some [TStr "correct"; TInt 42; TStr "staple"]) (sample four_words)))))
             _ eq_refl eq_refl).
Defined.

Local Close Scope string_scope.

(** ** Sizing *)

Section SizingFacts.

Variable calc_entropy_bits : list value -> res value.
Variable calc_entropy_bits_nrange : value -> value -> res value.
Variable calc_words_amount_needed : value -> value -> value -> value -> res value.

Lemma entropy_bits_cases (lst : list value) :
  entropy_bits calc_entropy_bits calc_entropy_bits_nrange lst =
  match lst with
  | [lo; hi] =>
      if isinstance_number lo && isinstance_number hi
      then calc_entropy_bits_nrange lo hi
      else calc_entropy_bits lst
  | _ => calc_entropy_bits lst
  end.
Proof.
  unfold entropy_bits.
  destruct lst as [|lo [|hi [|x l]]]; reflexivity.
Qed.

(** A word list is a list of strings, so its entropy is always that of
    an alphabet. *)
Lemma entropy_bits_words (words : list string) :
  entropy_bits calc_entropy_bits calc_entropy_bits_nrange (map VStr words) =
  calc_entropy_bits (map VStr words).
Proof.
  rewrite entropy_bits_cases.
  destruct words as [|a [|b [|c l]]]; reflexivity.
Qed.

(** C7.  [words_amount_needed] is [calc.words_amount_needed] applied to
    [entropy_bits_req], the entropy per word (the stored constant with
    the built-in list, [entropy_bits] of the word list otherwise), the
    entropy of the range from [randnum_min] to [randnum_max], and
    [amount_n]; a failure of [calc] is passed on; the object is left as
    it was. *)
Theorem words_amount_needed_delegates (self : Passphrase) :
  words_amount_needed calc_entropy_bits calc_entropy_bits_nrange
    calc_words_amount_needed self =
  (and_then
     (calc_entropy_bits_nrange (VInt (randnum_min self)) (VInt (randnum_max self)))
     (fun entropy_n =>
        and_then
          (if _external_wordlist self
           then entropy_bits calc_entropy_bits calc_entropy_bits_nrange
                  (map VStr (wordlist self))
           else Ret (_wordlist_entropy_bits self))
          (fun entropy_w =>
             calc_words_amount_needed (entropy_bits_req self) entropy_w
               entropy_n (VInt (amount_n self)))),
   self).
Proof.
  unfold words_amount_needed. unfold bind at 1. cbn [get].
  unfold bind at 1. unfold lift_res at 1.
  rewrite entropy_bits_cases. cbn [isinstance_number andb].
  destruct (calc_entropy_bits_nrange _ _) as [entropy_n|e|]; cbn [and_then];
    [|reflexivity..].
  unfold bind. destruct (_external_wordlist self); cbn [negb].
  - unfold lift_res, wordlist.
    destruct (entropy_bits calc_entropy_bits calc_entropy_bits_nrange
                (map VStr (_wordlist self))) as [entropy_w|e|];
      reflexivity.
  - reflexivity.
Qed.

End SizingFacts.

(** C9, as it is written, fails: the range from 0 to 1 has two integers,
    so that its entropy is that of an alphabet of two symbols, [log2 2],
    the 1 bit the claim excludes; and a range whose maximum is below its
    minimum has no entropy at all, [calc] fails on it. *)
Lemma entropy_bits_range_of_two_integers :
  (forall log2 float_range,
      entropy_bits (calc.entropy_bits log2)
        (calc.entropy_bits_nrange log2 float_range) [VInt 0; VInt 1] =
      Ret (VFloat (log2 2)) /\
      calc.entropy_bits log2 [VStr "a"; VStr "b"] = Ret (VFloat (log2 2))) /\
  (forall log2 float_range,
      entropy_bits (calc.entropy_bits log2)
        (calc.entropy_bits_nrange log2 float_range) [VInt 1; VInt 0] =
      Raise InvalidRange).
Proof.
  split; [intros log2 float_range; split|intros log2 float_range];
    reflexivity.
Qed.

(** C9, as the code has it.  [entropy_bits] hands a list or tuple of
    exactly two numbers to the range formula of [calc], as its minimum
    and maximum, and never to the alphabet formula; every other input
    goes to the alphabet formula.  With the formulas of the
    specification, two ints [lo] and [hi] give [log2 (hi - lo + 1)],
    which is [0.0] for [hi = lo] and for [hi = lo + 1] the entropy of an
    alphabet of two symbols, and a failure with [InvalidRange] for
    [hi < lo]. *)
Theorem entropy_bits_range_or_alphabet (log2 : Z -> spec_float)
    (float_range : value -> value -> res value) :
  (forall calc_entropy_bits calc_entropy_bits_nrange lo hi,
      isinstance_number lo = true -> isinstance_number hi = true ->
      entropy_bits calc_entropy_bits calc_entropy_bits_nrange [lo; hi] =
      calc_entropy_bits_nrange lo hi) /\
  (forall calc_entropy_bits calc_entropy_bits_nrange lst,
      (forall lo hi, lst = [lo; hi] ->
                     isinstance_number lo = false \/
                     isinstance_number hi = false) ->
      entropy_bits calc_entropy_bits calc_entropy_bits_nrange lst =
      calc_entropy_bits lst) /\
  (forall lo hi : Z,
      entropy_bits (calc.entropy_bits log2)
        (calc.entropy_bits_nrange log2 float_range) [VInt lo; VInt hi] =
      if hi <? lo then Raise InvalidRange
      else if hi =? lo then Ret (VFloat fzero)
      else Ret (VFloat (log2 (hi - lo + 1)))) /\
  (forall lo : Z,
      entropy_bits (calc.entropy_bits log2)
        (calc.entropy_bits_nrange log2 float_range) [VInt lo; VInt (lo + 1)] =
      calc.entropy_bits log2 [VStr "a"; VStr "b"]).
Proof.
  split; [|split; [|split]].
  - intros ceb cebn lo hi Hlo Hhi. rewrite entropy_bits_cases, Hlo, Hhi.
    reflexivity.
  - intros ceb cebn lst H. rewrite entropy_bits_cases.
    destruct lst as [|lo [|hi [|x l]]]; try reflexivity.
    destruct (H lo hi eq_refl) as [E|E]; rewrite E;
      [reflexivity|rewrite andb_false_r; reflexivity].
  - intros lo hi. rewrite entropy_bits_cases. cbn [isinstance_number andb].
    unfold calc.entropy_bits_nrange. cbn [isinstance_int andb int_of].
    destruct (Z.ltb_spec hi lo) as [Hlt|Hge]; [reflexivity|].
    unfold calc.bits_of_size.
    destruct (Z.eqb_spec hi lo) as [->|Hne].
    + replace (lo - lo + 1 <=? 1) with true
        by (symmetry; apply Z.leb_le; lia).
      reflexivity.
    + replace (hi - lo + 1 <=? 1) with false
        by (symmetry; apply Z.leb_gt; lia).
      reflexivity.
  - intros lo. rewrite entropy_bits_cases. cbn [isinstance_number andb].
    unfold calc.entropy_bits_nrange. cbn [isinstance_int andb int_of].
    destruct (Z.ltb_spec (lo + 1) lo) as [Hlt|Hge]; [lia|].
    replace (lo + 1 - lo + 1) with 2 by lia. reflexivity.
Qed.

Lemma entropy_bits_range_or_alphabet_witness :
  isinstance_number (VInt 1) = true /\
  isinstance_number (VFloat fzero) = true /\
  (forall log2 float_range,
      entropy_bits (calc.entropy_bits log2)
        (calc.entropy_bits_nrange log2 float_range) [VInt 1; VFloat fzero] =
      float_range (VInt 1) (VFloat fzero)) /\
  (forall log2 float_range,
      entropy_bits (calc.entropy_bits log2)
        (calc.entropy_bits_nrange log2 float_range) [VInt 1; VInt 6] =
      Ret (VFloat (log2 6))) /\
  (forall log2 float_range,
      entropy_bits (calc.entropy_bits log2)
        (calc.entropy_bits_nrange log2 float_range)
        [VStr "correct"; VStr "horse"; VStr "correct"] =
      Ret (VFloat (log2 2))).
Proof.
  split; [reflexivity|]. split; [reflexivity|]. split; [|split].
  - intros log2 float_range.
    exact (proj1 (entropy_bits_range_or_alphabet log2 float_range)
             (calc.entropy_bits log2)
             (calc.entropy_bits_nrange log2 float_range)
             (VInt 1) (VFloat fzero) eq_refl eq_refl).
  - intros log2 float_range.
    exact (proj1 (proj2 (proj2
             (entropy_bits_range_or_alphabet log2 float_range))) 1 6).
  - intros log2 float_range.
    rewrite (proj1 (proj2 (entropy_bits_range_or_alphabet log2 float_range))
               (calc.entropy_bits log2)
               (calc.entropy_bits_nrange log2 float_range)
               [VStr "correct"; VStr "horse"; VStr "correct"]).
    + reflexivity.
    + intros lo hi H. discriminate.
Defined.

(** ** Bytes and integers *)

Lemma int_from_bytes_snoc (l : list Z) (b : Z) :
  int_from_bytes (l ++ [b]) = int_from_bytes l * 256 + b.
Proof. unfold int_from_bytes. rewrite fold_left_app. reflexivity. Qed.

Lemma length_int_to_bytes k : forall x, List.length (int_to_bytes k x) = k.
Proof.
  induction k as [|k IH]; intros x; cbn [int_to_bytes]; [reflexivity|].
  rewrite length_app, IH. cbn. lia.
Qed.

Lemma int_to_bytes_bytes k : forall x,
  Forall (fun b => 0 <= b < 256) (int_to_bytes k x).
Proof.
  induction k as [|k IH]; intros x; cbn [int_to_bytes]; [constructor|].
  apply Forall_app. split; [apply IH|].
  constructor; [apply Z.mod_pos_bound; lia|constructor].
Qed.

Lemma int_from_to_bytes k : forall x,
  0 <= x < 256 ^ Z.of_nat k -> int_from_bytes (int_to_bytes k x) = x.
Proof.
  induction k as [|k IH]; intros x Hx.
  - cbn in *. lia.
  - cbn [int_to_bytes]. rewrite int_from_bytes_snoc.
    rewrite Nat2Z.inj_succ, Z.pow_succ_r in Hx by lia.
    rewrite IH.
    + pose proof (Z.div_mod x 256 ltac:(lia)). lia.
    + split; [apply Z.div_pos; lia|].
      apply Z.div_lt_upper_bound; lia.
Qed.

Lemma int_from_bytes_range (bs : list Z) :
  Forall (fun b => 0 <= b < 256) bs ->
  0 <= int_from_bytes bs < 256 ^ Z.of_nat (List.length bs).
Proof.
  induction bs as [|b bs IH] using rev_ind; intros H.
  - cbn. lia.
  - apply Forall_app in H. destruct H as [Hbs Hb].
    inversion Hb as [|? ? Hb0 _]; subst.
    rewrite int_from_bytes_snoc, length_app. cbn [List.length].
    rewrite Nat2Z.inj_add, Z.pow_add_r by lia.
    specialize (IH Hbs). change (256 ^ Z.of_nat 1) with 256. nia.
Qed.

Lemma int_to_from_bytes (bs : list Z) :
  Forall (fun b => 0 <= b < 256) bs ->
  int_to_bytes (List.length bs) (int_from_bytes bs) = bs.
Proof.
  induction bs as [|b bs IH] using rev_ind; intros H.
  - reflexivity.
  - apply Forall_app in H. destruct H as [Hbs Hb].
    inversion Hb as [|? ? Hb0 _]; subst.
    rewrite int_from_bytes_snoc, length_app. cbn [List.length].
    replace (List.length bs + 1)%nat with (S (List.length bs)) by lia.
    cbn [int_to_bytes].
    replace ((int_from_bytes bs * 256 + b) / 256) with (int_from_bytes bs)
      by (apply Z.div_unique with b; lia).
    replace ((int_from_bytes bs * 256 + b) mod 256) with b
      by (apply Z.mod_unique with (int_from_bytes bs); lia).
    rewrite IH by assumption. reflexivity.
Qed.

Lemma pow256_nat k : Z.of_nat (256 ^ k) = 256 ^ Z.of_nat k.
Proof. rewrite Nat2Z.inj_pow. reflexivity. Qed.

(** [byte_strings k] lists the byte strings of length [k], each once. *)
Lemma byte_strings_complete k bs :
  In bs (byte_strings k) <->
  List.length bs = k /\ Forall (fun b => 0 <= b < 256) bs.
Proof.
  unfold byte_strings. rewrite in_map_iff. split.
  - intros (x & <- & _). split; [apply length_int_to_bytes|apply int_to_bytes_bytes].
  - intros (Hlen & Hb). pose proof (int_from_bytes_range bs Hb) as Hr.
    exists (Z.to_nat (int_from_bytes bs)). split.
    + rewrite Z2Nat.id by lia. rewrite <- Hlen. apply int_to_from_bytes. exact Hb.
    + apply in_seq. rewrite Hlen in Hr. split; [lia|].
      cbn [Nat.add]. apply Nat2Z.inj_lt.
      rewrite Z2Nat.id, pow256_nat by lia. exact (proj2 Hr).
Qed.

Lemma byte_strings_NoDup k : NoDup (byte_strings k).
Proof.
  unfold byte_strings. apply NoDup_map_NoDup_ForallPairs; [|apply seq_NoDup].
  intros x y Hx Hy E. apply in_seq in Hx, Hy.
  apply (f_equal int_from_bytes) in E.
  rewrite !int_from_to_bytes in E; [lia| |];
    (rewrite <- pow256_nat; lia).
Qed.

(** ** Counting *)

Lemma filter_map_length {A B} (P : B -> bool) (f : A -> B) (l : list A) :
  List.length (filter P (map f l)) = List.length (filter (fun x => P (f x)) l).
Proof.
  induction l as [|x l IH]; [reflexivity|]. cbn.
  destruct (P (f x)); cbn; rewrite IH; reflexivity.
Qed.

Lemma count_seq_shift (P : nat -> bool) : forall len a,
  List.length (filter P (seq a len)) =
  List.length (filter (fun i => P (a + i)%nat) (seq 0 len)).
Proof.
  intros len a. rewrite <- (Nat.add_0_r a) at 1.
  generalize 0%nat as o. induction len as [|len IH]; intros o; [reflexivity|].
  cbn [seq filter]. destruct (P (a + o)%nat); cbn [List.length];
    rewrite <- IH; repeat f_equal; lia.
Qed.

Lemma count_eq_seq (v : Z) : forall len,
  0 <= v < Z.of_nat len ->
  List.length (filter (fun i => Z.of_nat i =? v) (seq 0 len)) = 1%nat.
Proof.
  induction len as [|len IH]; intros Hv; [lia|].
  rewrite seq_S, filter_app, length_app. cbn [Nat.add filter].
  destruct (Z.eqb_spec (Z.of_nat len) v) as [E|E].
  - replace (List.length (filter (fun i => Z.of_nat i =? v) (seq 0 len))) with 0%nat;
      [reflexivity|].
    symmetry. apply length_zero_iff_nil.
    rewrite <- (filter_false (seq 0 len)). apply filter_ext_in.
    intros i Hi. apply in_seq in Hi. apply Z.eqb_neq. lia.
  - rewrite IH by lia. reflexivity.
Qed.

(** Among [q * m] consecutive integers from [0], exactly [q] leave the
    remainder [v] modulo [m]. *)
Lemma count_mod (m : nat) (v : Z) :
  0 <= v < Z.of_nat m ->
  forall q,
    List.length (filter (fun x => Z.of_nat x mod Z.of_nat m =? v) (seq 0 (q * m))) = q.
Proof.
  intros Hv. induction q as [|q IH]; [reflexivity|].
  replace (S q * m)%nat with (q * m + m)%nat by lia.
  rewrite seq_app, filter_app, length_app, IH. cbn [Nat.add].
  rewrite count_seq_shift.
  rewrite (filter_ext_in _ (fun i => Z.of_nat i =? v)).
  - rewrite count_eq_seq by assumption. lia.
  - intros i Hi. apply in_seq in Hi. f_equal.
    rewrite Nat2Z.inj_add, Nat2Z.inj_mul, Z.add_comm, Z.mod_add by lia.
    apply Z.mod_small. lia.
Qed.

(** ** [random_below] is unbiased *)

Lemma bytes_cover_bits n : bit_length n <= 8 * Z.of_nat (bytes_needed n).
Proof.
  unfold bytes_needed. pose proof (bit_length_nonneg n).
  rewrite Z2Nat.id by (apply Z.div_pos; lia).
  pose proof (Z.div_mod (bit_length n + 7) 8 ltac:(lia)).
  pose proof (Z.mod_pos_bound (bit_length n + 7) 8 ltac:(lia)). lia.
Qed.

Lemma bytes_needed_covers n : 0 < n -> n < 256 ^ Z.of_nat (bytes_needed n).
Proof.
  intros Hn. pose proof (bit_length_bounds n Hn) as [_ Hlt].
  pose proof (bytes_cover_bits n). pose proof (bit_length_nonneg n).
  change 256 with (2 ^ 8). rewrite <- Z.pow_mul_r by lia.
  eapply Z.lt_le_trans; [exact Hlt|]. apply Z.pow_le_mono_r; lia.
Qed.

Lemma bytes_needed_minimal n k :
  0 < n -> n < 256 ^ Z.of_nat k -> (bytes_needed n <= k)%nat.
Proof.
  intros Hn Hk. pose proof (bit_length_bounds n Hn) as [Hle _].
  pose proof (bit_length_pos n Hn) as Hpos.
  assert (H : 2 ^ (bit_length n - 1) < 2 ^ (8 * Z.of_nat k)).
  { eapply Z.le_lt_trans; [exact Hle|].
    rewrite Z.pow_mul_r by lia. exact Hk. }
  apply Z.pow_lt_mono_r_iff in H; [|lia|lia].
  unfold bytes_needed. apply Nat2Z.inj_le.
  rewrite Z2Nat.id by (apply Z.div_pos; lia).
  pose proof (Z.div_mod (bit_length n + 7) 8 ltac:(lia)).
  pose proof (Z.mod_pos_bound (bit_length n + 7) 8 ltac:(lia)). lia.
Qed.

Lemma masked_mod n x : Z.land x (mask n) = x mod 2 ^ bit_length n.
Proof. unfold mask. apply Z.land_ones. apply bit_length_nonneg. Qed.

Lemma hits_uniform n v :
  0 < n -> 0 <= v < n ->
  hits n v = (2 ^ (8 * bytes_needed n - Z.to_nat (bit_length n)))%nat.
Proof.
  intros Hn Hv. unfold hits, byte_strings.
  pose proof (bit_length_nonneg n) as Hb0.
  pose proof (bytes_cover_bits n) as Hcov.
  pose proof (bit_length_bounds n Hn) as [_ Hlt].
  rewrite filter_map_length.
  set (k := bytes_needed n) in *. set (b := Z.to_nat (bit_length n)).
  assert (Hm : Z.of_nat (2 ^ b) = 2 ^ bit_length n).
  { rewrite Nat2Z.inj_pow. unfold b. rewrite Z2Nat.id by lia. reflexivity. }
  rewrite (filter_ext_in _ (fun x => Z.of_nat x mod Z.of_nat (2 ^ b) =? v)).
  - replace (256 ^ k)%nat with (2 ^ (8 * k - b) * 2 ^ b)%nat.
    + apply count_mod. rewrite Hm. lia.
    + rewrite <- Nat.pow_add_r. replace (8 * k - b + b)%nat with (8 * k)%nat by lia.
      rewrite Nat.pow_mul_r. reflexivity.
  - intros x Hx. apply in_seq in Hx. f_equal.
    rewrite int_from_to_bytes by (rewrite <- pow256_nat; lia).
    rewrite masked_mod, Hm. reflexivity.
Qed.

Lemma window_shift n s j :
  window n (mkEntropy (tape s) (pos s + bytes_needed n)) j = window n s (S j).
Proof.
  unfold window. cbn [tape pos]. do 2 f_equal. apply map_ext.
  intros i. do 2 f_equal. lia.
Qed.

Lemma random_below_step fuel n s :
  random_below (S fuel) n s =
  if window n s 0 <? n
  then (Ret (window n s 0), mkEntropy (tape s) (pos s + bytes_needed n))
  else random_below fuel n (mkEntropy (tape s) (pos s + bytes_needed n)).
Proof.
  rewrite random_below_unfold. cbv zeta. unfold window.
  replace (map (fun i => tape s (pos s + 0 * bytes_needed n + i)%nat mod 256)
               (seq 0 (bytes_needed n)))
    with (map (fun i => tape s (pos s + i)%nat mod 256) (seq 0 (bytes_needed n)))
    by (apply map_ext; intros i; do 2 f_equal; lia).
  reflexivity.
Qed.

(** The loop returns the first masked draw that is below [n]. *)
Lemma random_below_first n : forall fuel s k,
  (k < fuel)%nat ->
  window n s k < n ->
  (forall j, (j < k)%nat -> n <= window n s j) ->
  random_below fuel n s =
  (Ret (window n s k), mkEntropy (tape s) (pos s + (k + 1) * bytes_needed n)).
Proof.
  induction fuel as [|fuel IH]; intros s k Hk Hacc Hrej; [lia|].
  rewrite random_below_step. destruct k as [|k].
  - destruct (Z.ltb_spec (window n s 0) n); [|lia].
    do 2 f_equal. lia.
  - pose proof (Hrej 0%nat ltac:(lia)) as H0.
    destruct (Z.ltb_spec (window n s 0) n); [lia|].
    rewrite (IH _ k); cbn [tape pos].
    + rewrite window_shift. do 2 f_equal. lia.
    + lia.
    + rewrite window_shift. assumption.
    + intros j Hj. rewrite window_shift. apply Hrej. lia.
Qed.

Lemma random_below_returns n : forall fuel s,
  (exists k, (k < fuel)%nat /\ window n s k < n) ->
  exists r s', random_below fuel n s = (Ret r, s').
Proof.
  induction fuel as [|fuel IH]; intros s (k & Hk & Hacc); [lia|].
  rewrite random_below_step.
  destruct (Z.ltb_spec (window n s 0) n) as [Hlt|Hge]; [eauto|].
  destruct k as [|k]; [lia|].
  apply IH. exists k. split; [lia|]. rewrite window_shift. assumption.
Qed.

(** C5.  For [n > 0], [random_below(n)] never raises and whatever it
    returns lies in [0, n); it returns the first masked draw below [n],
    each draw reading fresh bytes, so it returns as soon as one draw
    within the bound is below [n]; a draw reads the least number of
    bytes [k] with [n < 256 ^ k] and keeps the low [bit_length n] bits,
    where [n < 2 ^ bit_length n <= 2 * n]; and every value below [n] is
    the masked value of exactly as many of the equally likely byte
    strings as every other, so that no value is favoured. *)
Theorem random_below_unbiased (n : Z) :
  0 < n ->
  (forall fuel s r s', random_below fuel n s = (Ret r, s') -> 0 <= r < n) /\
  (forall fuel s e s', random_below fuel n s <> (Raise e, s')) /\
  (forall fuel s k,
      (k < fuel)%nat -> window n s k < n ->
      (forall j, (j < k)%nat -> n <= window n s j) ->
      random_below fuel n s =
      (Ret (window n s k),
       mkEntropy (tape s) (pos s + (k + 1) * bytes_needed n))) /\
  (forall fuel s,
      (exists k, (k < fuel)%nat /\ window n s k < n) ->
      exists r s', random_below fuel n s = (Ret r, s')) /\
  (n < 256 ^ Z.of_nat (bytes_needed n) /\
   forall k, n < 256 ^ Z.of_nat k -> (bytes_needed n <= k)%nat) /\
  ((forall x, Z.land x (mask n) = x mod 2 ^ bit_length n) /\
   2 ^ (bit_length n - 1) <= n < 2 ^ bit_length n) /\
  (forall v, 0 <= v < n ->
     hits n v = (2 ^ (8 * bytes_needed n - Z.to_nat (bit_length n)))%nat).
Proof.
  intros Hn.
  split; [intros fuel s r s' H; eapply random_below_range; eassumption|].
  split; [intros fuel; apply random_below_no_raise|].
  split; [apply random_below_first|].
  split; [apply random_below_returns|].
  split; [split; [apply bytes_needed_covers; assumption
                 |intros k; apply bytes_needed_minimal; assumption]|].
  split; [split; [apply masked_mod|apply bit_length_bounds; assumption]|].
  intros v Hv. apply hits_uniform; assumption.
Qed.

Lemma random_below_unbiased_witness :
  0 < 6 /\
  random_below 3 6 (tape_of [7; 255; 4]) =
  (Ret 4, mkEntropy (tape (tape_of [7; 255; 4])) 3) /\
  hits 6 0 = 32%nat /\ hits 6 5 = 32%nat.
Proof.
  assert (H : 0 < 6) by lia.
  destruct (random_below_unbiased 6 H) as (_ & _ & Hfirst & _ & _ & _ & Hhits).
  split; [exact H|]. split; [|split].
  - apply (Hfirst 3%nat (tape_of [7; 255; 4]) 2%nat).
    + lia.
    + vm_compute. reflexivity.
    + intros j Hj. destruct j as [|[|j]]; [vm_compute; discriminate..|lia].
  - apply (Hhits 0). lia.
  - apply (Hhits 5). lia.
Defined.

(** * Further properties of the class *)

(** ** The setters, once more *)

Lemma field_eq_dec (f g : field) : {f = g} + {f <> g}.
Proof. decide equality. Qed.

(** A numeric field other than [entropy_bits_req] accepts every int that
    is not negative: reading the field back gives that int, and no other
    attribute of the object has changed. *)
Theorem assign_then_read (f : field) (v : value) (self : Passphrase) :
  f <> F_entropy_bits_req ->
  isinstance_int v = true ->
  0 <= int_of v ->
  exists self',
    assign f v self = (Ret tt, self') /\
    read f self' = VInt (int_of v) /\
    (forall g, g <> f -> read g self' = read g self) /\
    rest_of self' = rest_of self.
Proof.
  intros Hf Hi Hv.
  assert (Hneg : (int_of v <? 0) = false) by (apply Z.ltb_ge; assumption).
  destruct f; try congruence; cbn [assign];
    [ exists (with_randnum_min (int_of v) self)
    | exists (with_randnum_max (int_of v) self)
    | exists (with_amount_w (int_of v) self)
    | exists (with_amount_n (int_of v) self)
    | exists (with_passwordlen (int_of v) self) ];
    (split;
     [ unfold set_randnum_min, set_randnum_max, set_amount_w, set_amount_n,
         set_passwordlen; rewrite Hi, Hneg; reflexivity
     | split; [reflexivity|split; [|reflexivity]];
       intros g Hg; destruct g; try congruence; reflexivity ]).
Qed.

Lemma assign_then_read_witness :
  F_amount_w <> F_entropy_bits_req /\
  isinstance_int (VInt 8) = true /\
  0 <= int_of (VInt 8) /\
  exists self',
    assign F_amount_w (VInt 8) (sample four_words) = (Ret tt, self') /\
    read F_amount_w self' = VInt 8 /\
    read F_amount_n self' = VInt 0.
Proof.
  assert (H1 : F_amount_w <> F_entropy_bits_req) by discriminate.
  assert (H3 : 0 <= int_of (VInt 8)) by (cbn; lia).
  split; [exact H1|]. split; [reflexivity|]. split; [exact H3|].
  destruct (assign_then_read F_amount_w (VInt 8) (sample four_words)
              H1 eq_refl H3) as (self' & Hrun & Hread & Hframe & _).
  exists self'. split; [exact Hrun|]. split; [exact Hread|].
  rewrite (Hframe F_amount_n) by discriminate. reflexivity.
Defined.

(** The nearest binary64 of an int that is not negative is not below
    zero. *)
Lemma binary_round_aux_not_below_zero mx ex lx :
  SFltb (binary_round_aux prec emax false mx ex lx) fzero = false.
Proof.
  unfold binary_round_aux.
  destruct (shr_fexp prec emax mx ex lx) as [mrs' e'].
  destruct (shr_fexp prec emax _ e' loc_Exact) as [mrs'' e''].
  destruct (shr_m mrs'') as [|m|m]; [reflexivity| |reflexivity].
  destruct (e'' <=? emax - prec); reflexivity.
Qed.

Lemma nearest_float_not_below_zero z :
  0 <= z -> SFltb (nearest_float z) fzero = false.
Proof.
  intros Hz. unfold nearest_float, binary_normalize.
  destruct z as [|m|m]; [reflexivity| |lia].
  unfold binary_round. destruct (shl_align m 0 _) as [mz ez].
  apply binary_round_aux_not_below_zero.
Qed.

Lemma to_float_not_below_zero v x :
  lt_zero v = false -> to_float v = inr x -> lt_zero (VFloat x) = false.
Proof.
  intros Hz Hx. destruct v as [|b|z|y|s]; try discriminate; cbn in Hx.
  - assert (E : x = nearest_float (Z.b2z b))
      by (destruct (nearest_float (Z.b2z b)); congruence).
    subst x. apply nearest_float_not_below_zero. destruct b; cbn; lia.
  - assert (E : x = nearest_float z)
      by (destruct (nearest_float z); congruence).
    subst x. apply nearest_float_not_below_zero.
    cbn in Hz. apply Z.ltb_ge in Hz. assumption.
  - injection Hx as <-. exact Hz.
Qed.

Lemma set_int_keeps (name1 name2 : string)
    (store : Z -> Passphrase -> Passphrase) (P : Passphrase -> Prop)
    (v : value) (self : Passphrase) r self' :
  P self ->
  (forall z, 0 <= z -> P (store z self)) ->
  (if negb (isinstance_int v) then raise (TypeError name1)
   else if int_of v <? 0 then raise (ValueError name2)
   else modify (store (int_of v))) self = (r, self') ->
  P self'.
Proof.
  intros HP Hstore. destruct (isinstance_int v); cbn [negb].
  - destruct (Z.ltb_spec (int_of v) 0) as [Hlt|Hge]; intros H;
      injection H as _ <-; [assumption|apply Hstore; assumption].
  - intros H. injection H as _ <-. assumption.
Qed.

Ltac other_field Hinv :=
  first [ exact (Hinv F_entropy_bits_req) | exact (Hinv F_randnum_min)
        | exact (Hinv F_randnum_max) | exact (Hinv F_amount_w)
        | exact (Hinv F_amount_n) | exact (Hinv F_passwordlen) ].

(** However an assignment to a numeric field ends, it leaves no numeric
    field below zero if none was before. *)
Theorem assign_keeps_non_negative (f : field) (v : value)
    (self : Passphrase) r self' :
  non_negative self ->
  assign f v self = (r, self') ->
  non_negative self'.
Proof.
  intros Hinv. destruct f; cbn [assign].
  - unfold set_entropy_bits_req.
    destruct (isinstance_number v); cbn [negb];
      [|intros H; injection H as _ <-; assumption].
    destruct (lt_zero v) eqn:Hz; [intros H; injection H as _ <-; assumption|].
    destruct (to_float v) as [e|x] eqn:Hx;
      intros H; injection H as _ <-; [assumption|].
    intros g. destruct g;
      [exact (to_float_not_below_zero _ _ Hz Hx)|other_field Hinv..].
  - apply set_int_keeps; [assumption|]. intros z Hz g.
    destruct g; try other_field Hinv. cbn. apply Z.ltb_ge. assumption.
  - apply set_int_keeps; [assumption|]. intros z Hz g.
    destruct g; try other_field Hinv. cbn. apply Z.ltb_ge. assumption.
  - apply set_int_keeps; [assumption|]. intros z Hz g.
    destruct g; try other_field Hinv. cbn. apply Z.ltb_ge. assumption.
  - apply set_int_keeps; [assumption|]. intros z Hz g.
    destruct g; try other_field Hinv. cbn. apply Z.ltb_ge. assumption.
  - apply set_int_keeps; [assumption|]. intros z Hz g.
    destruct g; try other_field Hinv. cbn. apply Z.ltb_ge. assumption.
Qed.

Lemma sample_non_negative words : non_negative (sample words).
Proof. intros f. destruct f; reflexivity. Qed.

Lemma assign_keeps_non_negative_witness :
  non_negative (sample four_words) /\
  assign F_entropy_bits_req (VInt 77) (sample four_words) =
  (Ret tt, with_entropy_bits_req
             (VFloat (S754_finite false 5418393301680128 (-46)))
             (sample four_words)) /\
  non_negative (with_entropy_bits_req
                  (VFloat (S754_finite false 5418393301680128 (-46)))
                  (sample four_words)).
Proof.
  assert (Hrun : assign F_entropy_bits_req (VInt 77) (sample four_words) =
                 (Ret tt, with_entropy_bits_req
                            (VFloat (S754_finite false 5418393301680128 (-46)))
                            (sample four_words))) by reflexivity.
  split; [apply sample_non_negative|]. split; [exact Hrun|].
  exact (assign_keeps_non_negative _ _ _ _ _
           (sample_non_negative four_words) Hrun).
Defined.

(** The two setters of the range check nothing about each other: any
    two ints that are not negative are accepted as minimum and maximum,
    the maximum below the minimum too. *)
Theorem setters_accept_inverted_range (lo hi : Z) (self : Passphrase) :
  0 <= hi < lo ->
  exists self',
    (assign F_randnum_min (VInt lo) ;;; assign F_randnum_max (VInt hi)) self =
    (Ret tt, self') /\
    randnum_min self' = lo /\ randnum_max self' = hi /\
    randnum_max self' < randnum_min self'.
Proof.
  intros H. exists (with_randnum_max hi (with_randnum_min lo self)).
  split; [|cbn; repeat split; lia].
  unfold bind. cbn [assign]. unfold set_randnum_min, set_randnum_max.
  cbn [isinstance_int negb int_of].
  destruct (Z.ltb_spec lo 0); [lia|]. cbn [modify].
  destruct (Z.ltb_spec hi 0); [lia|]. reflexivity.
Qed.

Lemma setters_accept_inverted_range_witness :
  0 <= 5 < 10 /\
  exists self',
    (assign F_randnum_min (VInt 10) ;;; assign F_randnum_max (VInt 5))
      (sample four_words) = (Ret tt, self') /\
    randnum_max self' < randnum_min self'.
Proof.
  assert (H : 0 <= 5 < 10) by lia.
  split; [exact H|].
  destruct (setters_accept_inverted_range 10 5 (sample four_words) H)
    as (self' & Hrun & _ & _ & Hlt).
  exists self'. split; assumption.
Defined.

(** The [separator] setter takes a string and nothing else: any string,
    the empty one too, replaces the separator and nothing but it; on any
    other value it raises [TypeError] and the object is as it was. *)
Theorem set_separator_validated (v : value) (self : Passphrase) :
  match v with
  | VStr s =>
      set_separator v self = (Ret tt, with_separator s self) /\
      separator (with_separator s self) = s /\
      (forall f, read f (with_separator s self) = read f self) /\
      last_result (with_separator s self) = last_result self /\
      wordlist (with_separator s self) = wordlist self
  | _ =>
      set_separator v self =
      (Raise (TypeError "separator can only be string"), self)
  end.
Proof.
  destruct v; try reflexivity.
  split; [reflexivity|]. split; [reflexivity|].
  split; [intros f; destruct f; reflexivity|]. split; reflexivity.
Qed.

(** ** Rendering, once more *)

Local Open Scope string_scope.

Lemma str_join (self : Passphrase) (result : list token) :
  last_result self = Some result ->
  __str__ self = String.concat (separator self) (map str result).
Proof.
  intros Hr. unfold __str__. rewrite Hr.
  destruct result as [|t result].
  - cbn [map String.concat].
    destruct (0 <? String.length (separator self))%nat; reflexivity.
  - destruct (String.length (separator self)) as [|k] eqn:Hlen.
    + assert (Hsep : separator self = "")
        by (destruct (separator self); [reflexivity|discriminate]).
      rewrite Hsep. cbn [Nat.ltb Nat.leb]. apply concat_no_separator.
    + cbn [Nat.ltb Nat.leb]. rewrite concat_trailing by discriminate.
      rewrite <- Hlen. apply drop_last_append.
Qed.

(** Whatever the result and the separator are, rendering the object is
    Python's [separator.join(map(str, last_result))]: each token as text,
    the separator between two tokens and nowhere else. *)
Theorem str_is_join (self : Passphrase) (result : list token) :
  last_result self = Some result ->
  __str__ self = String.concat (separator self) (map str result).
Proof. exact (str_join self result). Qed.

Lemma str_is_join_witness :
  last_result (with_separator "::"
                 (with_last_result (Some [TStr "a"; TInt 7; TStr "b::"])
                    (sample four_words))) =
  Some [TStr "a"; TInt 7; TStr "b::"] /\
  __str__ (with_separator "::"
             (with_last_result (Some [TStr "a"; TInt 7; TStr "b::"])
                (sample four_words))) = "a::7::b::".
Proof.
  split; [reflexivity|].
  exact (str_is_join
           (with_separator "::"
              (with_last_result (Some [TStr "a"; TInt 7; TStr "b::"])
                 (sample four_words)))
           [TStr "a"; TInt 7; TStr "b::"] eq_refl).
Defined.

Local Close Scope string_scope.

(** ** Generation, once more *)

(** Rendering the object after [generate] has returned gives the tokens
    just returned, joined by the separator. *)
Theorem generate_then_str (MIN_NUM MAX_NUM : Z) (fuel : nat)
    (self : Passphrase) (os : entropy) tokens w' :
  generate MIN_NUM MAX_NUM fuel (self, os) = (Ret tokens, w') ->
  __str__ (fst w') = String.concat (separator self) (map str tokens).
Proof.
  intros H. apply generate_Ret in H.
  destruct H as (words & numbers & _ & _ & _ & _ & _ & ->).
  exact (str_join (with_last_result (Some tokens) self) tokens eq_refl).
Qed.

Lemma generate_then_str_witness :
  generate 0 10000 3 (die, tape_of [0; 255; 255; 39; 15]) =
  (Ret [TStr "correct"; TInt 9999],
   (with_last_result (Some [TStr "correct"; TInt 9999]) die,
    mkEntropy (tape (tape_of [0; 255; 255; 39; 15])) 5)) /\
  __str__ (with_last_result (Some [TStr "correct"; TInt 9999]) die) =
  "correct 9999"%string.
Proof.
  assert (H : generate 0 10000 3 (die, tape_of [0; 255; 255; 39; 15]) =
              (Ret [TStr "correct"; TInt 9999],
               (with_last_result (Some [TStr "correct"; TInt 9999]) die,
                mkEntropy (tape (tape_of [0; 255; 255; 39; 15])) 5)))
    by reflexivity.
  split; [exact H|].
  exact (generate_then_str 0 10000 3 die _ _ _ H).
Defined.

(** A call of [generate] or [generate_password] that does not return
    leaves the object, [last_result] included, as it was: the result is
    stored by the last statement only. *)
Theorem generation_failure_keeps_object (MIN_NUM MAX_NUM : Z) (fuel : nat)
    (self : Passphrase) (os : entropy) :
  (forall r w',
      generate MIN_NUM MAX_NUM fuel (self, os) = (r, w') ->
      (forall tokens, r <> Ret tokens) -> fst w' = self) /\
  (forall r w',
      generate_password fuel (self, os) = (r, w') ->
      (forall tokens, r <> Ret tokens) -> fst w' = self).
Proof.
  split; intros r w'.
  - rewrite generate_run. destruct (_ <? 1).
    { intros H _. injection H as _ <-. reflexivity. }
    destruct (append_draws _ _ [] os) as [[p1|e|] e1].
    + destruct (append_draws _ _ p1 e1) as [[p2|e|] e2];
        intros H Hr; injection H as <- <-;
        [exfalso; exact (Hr _ eq_refl)|reflexivity..].
    + intros H _. injection H as _ <-. reflexivity.
    + intros H _. injection H as _ <-. reflexivity.
  - rewrite generate_password_run.
    destruct (append_draws _ _ [] os) as [[p1|e|] e1];
      intros H Hr; injection H as <- <-;
      [exfalso; exact (Hr _ eq_refl)|reflexivity..].
Qed.

Lemma generation_failure_keeps_object_witness :
  generate 0 10000 1 (sample four_words, tape_of [255; 0]) =
  (Starved, (sample four_words, mkEntropy (tape (tape_of [255; 0])) 1)) /\
  fst (sample four_words, mkEntropy (tape (tape_of [255; 0])) 1) =
  sample four_words.
Proof.
  assert (H : generate 0 10000 1 (sample four_words, tape_of [255; 0]) =
              (Starved,
               (sample four_words, mkEntropy (tape (tape_of [255; 0])) 1)))
    by reflexivity.
  split; [exact H|].
  apply (proj1 (generation_failure_keeps_object 0 10000 1
                  (sample four_words) (tape_of [255; 0])) _ _ H).
  discriminate.
Defined.

(** With nothing to draw, nothing is read: when both counts are zero (or
    below) and the word list is not empty, [generate] returns the empty
    list without reading a byte, whatever the range of [settings] is; so
    does [generate_password] when the length is zero (or below). *)
Theorem generation_of_nothing (MIN_NUM MAX_NUM : Z) (fuel : nat)
    (self : Passphrase) (os : entropy) :
  (wordlist self <> [] -> amount_w self <= 0 -> amount_n self <= 0 ->
   generate MIN_NUM MAX_NUM fuel (self, os) =
   (Ret [], (with_last_result (Some []) self, os))) /\
  (passwordlen self <= 0 ->
   generate_password fuel (self, os) =
   (Ret [], (with_last_result (Some []) self, os))).
Proof.
  split.
  - intros Hl Hw Hn. rewrite generate_run.
    destruct (Z.ltb_spec (Z.of_nat (List.length (wordlist self))) 1) as [Hlen|_].
    { destruct (wordlist self); [congruence|cbn in Hlen; lia]. }
    replace (Z.to_nat (amount_w self)) with 0%nat by lia.
    replace (Z.to_nat (amount_n self)) with 0%nat by lia.
    reflexivity.
  - intros Hp. rewrite generate_password_run.
    replace (Z.to_nat (passwordlen self)) with 0%nat by lia.
    reflexivity.
Qed.

Lemma generation_of_nothing_witness :
  wordlist (with_amount_w 0 (sample four_words)) <> [] /\
  amount_w (with_amount_w 0 (sample four_words)) <= 0 /\
  amount_n (with_amount_w 0 (sample four_words)) <= 0 /\
  generate 9 1 0 (with_amount_w 0 (sample four_words), tape_of [1; 2; 3]) =
  (Ret [], (with_last_result (Some []) (with_amount_w 0 (sample four_words)),
            tape_of [1; 2; 3])).
Proof.
  assert (H1 : wordlist (with_amount_w 0 (sample four_words)) <> [])
    by discriminate.
  assert (H2 : amount_w (with_amount_w 0 (sample four_words)) <= 0)
    by (cbn; lia).
  assert (H3 : amount_n (with_amount_w 0 (sample four_words)) <= 0)
    by (cbn; lia).
  split; [exact H1|]. split; [exact H2|]. split; [exact H3|].
  exact (proj1 (generation_of_nothing 9 1 0
                  (with_amount_w 0 (sample four_words)) (tape_of [1; 2; 3]))
               H1 H2 H3).
Defined.

(** The numbers [generate] returns lie in the range of [settings],
    bounds included. *)
Theorem generate_numbers_from_settings (MIN_NUM MAX_NUM : Z) (fuel : nat)
    (self : Passphrase) (os : entropy) tokens w' :
  generate MIN_NUM MAX_NUM fuel (self, os) = (Ret tokens, w') ->
  forall n, In (TInt n) tokens -> MIN_NUM <= n <= MAX_NUM.
Proof. apply generate_numbers_in_settings_range. Qed.

Lemma generate_numbers_from_settings_witness :
  generate 0 10000 3 (die, tape_of [0; 255; 255; 39; 15]) =
  (Ret [TStr "correct"; TInt 9999],
   (with_last_result (Some [TStr "correct"; TInt 9999]) die,
    mkEntropy (tape (tape_of [0; 255; 255; 39; 15])) 5)) /\
  In (TInt 9999) [TStr "correct"; TInt 9999] /\
  0 <= 9999 <= 10000.
Proof.
  assert (H : generate 0 10000 3 (die, tape_of [0; 255; 255; 39; 15]) =
              (Ret [TStr "correct"; TInt 9999],
               (with_last_result (Some [TStr "correct"; TInt 9999]) die,
                mkEntropy (tape (tape_of [0; 255; 255; 39; 15])) 5)))
    by reflexivity.
  assert (Hin : In (TInt 9999) [TStr "correct"; TInt 9999])
    by (right; left; reflexivity).
  split; [exact H|]. split; [exact Hin|].
  exact (generate_numbers_from_settings 0 10000 3 die _ _ _ H 9999 Hin).
Defined.

(** [generate] never reads [randnum_min] or [randnum_max]: with any
    other range in the object it returns the same tokens and leaves the
    same bytes unread, and the range is as it was set. *)
Theorem generate_reads_no_range (MIN_NUM MAX_NUM : Z) (fuel : nat)
    (self : Passphrase) (os : entropy) (lo hi : Z) :
  generate MIN_NUM MAX_NUM fuel
    (with_randnum_min lo (with_randnum_max hi self), os) =
  (fst (generate MIN_NUM MAX_NUM fuel (self, os)),
   (with_randnum_min lo
      (with_randnum_max hi (fst (snd (generate MIN_NUM MAX_NUM fuel (self, os))))),
    snd (snd (generate MIN_NUM MAX_NUM fuel (self, os))))).
Proof.
  rewrite !generate_run. cbn [wordlist amount_w amount_n with_randnum_min
    with_randnum_max _wordlist _amount_w _amount_n].
  destruct (_ <? 1); [reflexivity|].
  destruct (append_draws _ _ [] os) as [[p1|e|] e1]; [|reflexivity..].
  destruct (append_draws _ _ p1 e1) as [[p2|e|] e2]; reflexivity.
Qed.

Lemma chars_of_codes_length codes c :
  In c (chars_of_codes codes) -> String.length c = 1%nat.
Proof.
  unfold chars_of_codes. intros H. apply in_map_iff in H.
  destruct H as (n & <- & _). reflexivity.
Qed.

Lemma characters_length c : In c characters -> String.length c = 1%nat.
Proof.
  unfold characters, digits, ascii_letters, punctuation. intros H.
  apply in_app_or in H. destruct H as [H|H];
    [|apply in_app_or in H; destruct H as [H|H]];
    eapply chars_of_codes_length; eassumption.
Qed.

Lemma length_concat_chars (sep : string) (l : list string) :
  Forall (fun c => String.length c = 1%nat) l ->
  l <> [] ->
  (String.length (String.concat sep l) + String.length sep =
   List.length l * (1 + String.length sep))%nat.
Proof.
  induction 1 as [|c l Hc Hl IH]; [congruence|]. intros _.
  destruct l as [|d l].
  - cbn [String.concat List.length]. lia.
  - change (String.concat sep (c :: d :: l))
      with (c ++ sep ++ String.concat sep (d :: l))%string.
    rewrite !length_append. specialize (IH ltac:(discriminate)).
    cbn [List.length] in *. lia.
Qed.

(** A password is rendered with the separator between its characters:
    the text of a password of [passwordlen > 0] characters has
    [passwordlen + (passwordlen - 1) * len(separator)] characters, and
    exactly [passwordlen] only when the separator is empty. *)
Theorem password_rendering_length (fuel : nat) (self : Passphrase)
    (os : entropy) tokens w' :
  0 < passwordlen self ->
  generate_password fuel (self, os) = (Ret tokens, w') ->
  Z.of_nat (String.length (__str__ (fst w'))) =
  passwordlen self +
  (passwordlen self - 1) * Z.of_nat (String.length (separator self)).
Proof.
  intros Hlen H. apply generate_password_Ret in H.
  destruct H as (chars & -> & Hl & Hin & ->).
  rewrite (str_join (with_last_result (Some (map TStr chars)) self)
             (map TStr chars) eq_refl).
  change (separator (with_last_result (Some (map TStr chars)) self))
    with (separator self).
  rewrite map_map. cbn [str]. rewrite map_id.
  assert (Hne : chars <> []) by (destruct chars; [cbn in Hl; lia|discriminate]).
  assert (Hone : Forall (fun c => String.length c = 1%nat) chars).
  { eapply Forall_impl; [|exact Hin]. apply characters_length. }
  pose proof (length_concat_chars (separator self) chars Hone Hne) as E.
  nia.
Qed.

Lemma password_rendering_length_witness :
  0 < passwordlen (with_passwordlen 3 (sample [])) /\
  generate_password 1 (with_passwordlen 3 (sample []), tape_of [10; 36; 62]) =
  (Ret [TStr "a"; TStr "A"; TStr "!"],
   (with_last_result (Some [TStr "a"; TStr "A"; TStr "!"])
      (with_passwordlen 3 (sample [])),
    mkEntropy (tape (tape_of [10; 36; 62])) 3)) /\
  __str__ (with_last_result (Some [TStr "a"; TStr "A"; TStr "!"])
             (with_passwordlen 3 (sample []))) = "a A !"%string /\
  Z.of_nat (String.length
              (__str__ (with_last_result (Some [TStr "a"; TStr "A"; TStr "!"])
                          (with_passwordlen 3 (sample []))))) = 5.
Proof.
  assert (H0 : 0 < passwordlen (with_passwordlen 3 (sample []))) by (cbn; lia).
  assert (H : generate_password 1
                (with_passwordlen 3 (sample []), tape_of [10; 36; 62]) =
              (Ret [TStr "a"; TStr "A"; TStr "!"],
               (with_last_result (Some [TStr "a"; TStr "A"; TStr "!"])
                  (with_passwordlen 3 (sample [])),
                mkEntropy (tape (tape_of [10; 36; 62])) 3)))
    by reflexivity.
  split; [exact H0|]. split; [exact H|]. split; [reflexivity|].
  exact (password_rendering_length 1 _ _ _ _ H0 H).
Defined.

(** ** Text *)

Local Open Scope string_scope.

Lemma lstrip_nonspace c s : isspace c = false -> lstrip (String c s) = String c s.
Proof. intros H. cbn. rewrite H. reflexivity. Qed.

Lemma lstrip_blank b : blank b = true -> lstrip b = "".
Proof.
  induction b as [|c b IH]; [reflexivity|]. cbn. intros H.
  apply andb_true_iff in H. destruct H as [-> H]. auto.
Qed.

Lemma lstrip_head s c r : lstrip s = String c r -> isspace c = false.
Proof.
  induction s as [|d s IH]; [discriminate|]. cbn.
  destruct (isspace d) eqn:E; [exact IH|].
  intros H. injection H as <- _. exact E.
Qed.

Lemma rstrip_nonspace c s :
  isspace c = false -> rstrip (String c s) = String c (rstrip s).
Proof. intros H. cbn. rewrite H. destruct (rstrip s); reflexivity. Qed.

Lemma rstrip_append_blank s b : blank b = true -> rstrip (s ++ b) = rstrip s.
Proof.
  intros Hb. induction s as [|c s IH].
  - cbn. induction b as [|d b IHb]; [reflexivity|].
    cbn in Hb. apply andb_true_iff in Hb. destruct Hb as [Hd Hb].
    cbn. rewrite (IHb Hb), Hd. reflexivity.
  - cbn. rewrite IH. reflexivity.
Qed.

Lemma rstrip_idem s : rstrip (rstrip s) = rstrip s.
Proof.
  induction s as [|c s IH]; [reflexivity|]. cbn.
  destruct (rstrip s) as [|d r] eqn:E.
  - destruct (isspace c) eqn:Ec; [reflexivity|]. cbn. rewrite Ec. reflexivity.
  - cbn [rstrip]. cbn [rstrip] in IH. rewrite IH. reflexivity.
Qed.

Lemma length_lstrip s : (String.length (lstrip s) <= String.length s)%nat.
Proof.
  induction s as [|c s IH]; [reflexivity|]. cbn.
  destruct (isspace c); cbn; lia.
Qed.

Lemma length_rstrip s : (String.length (rstrip s) <= String.length s)%nat.
Proof.
  induction s as [|c s IH]; [reflexivity|]. cbn.
  destruct (rstrip s); [destruct (isspace c)|]; cbn in *; lia.
Qed.

Lemma trimmed_eq s : trimmed s = true <-> strip s = s.
Proof. unfold trimmed. apply String.eqb_eq. Qed.

(** What [strip] returns has no white space left at either end. *)
Lemma strip_trimmed s : trimmed (strip s) = true.
Proof.
  apply trimmed_eq. unfold strip.
  destruct (lstrip s) as [|c r] eqn:E; [reflexivity|].
  pose proof (lstrip_head _ _ _ E) as Hc.
  rewrite rstrip_nonspace by assumption.
  rewrite lstrip_nonspace by assumption.
  rewrite rstrip_nonspace by assumption. rewrite rstrip_idem. reflexivity.
Qed.

(** A text with no white space at either end, followed by white space,
    is read back by [strip]. *)
Lemma strip_append_blank w b :
  trimmed w = true -> blank b = true -> strip (w ++ b) = w.
Proof.
  intros Hw Hb. apply trimmed_eq in Hw. destruct w as [|c w].
  - cbn [append]. unfold strip. rewrite lstrip_blank by assumption. reflexivity.
  - assert (Hc : isspace c = false).
    { destruct (isspace c) eqn:E; [|reflexivity]. exfalso.
      unfold strip in Hw. cbn [lstrip] in Hw. rewrite E in Hw.
      pose proof (length_rstrip (lstrip w)) as H1.
      pose proof (length_lstrip w) as H2.
      rewrite Hw in H1. cbn in H1. lia. }
    unfold strip in *. cbn [append].
    rewrite lstrip_nonspace in * by assumption.
    change (String c (w ++ b)) with (String c w ++ b).
    rewrite rstrip_append_blank by assumption. exact Hw.
Qed.

Lemma split_from_solid a : forall cur rest,
  solid a = true -> split_from cur (a ++ rest) = split_from (cur ++ a) rest.
Proof.
  induction a as [|c a IH]; intros cur rest Ha.
  - rewrite append_nil_r. reflexivity.
  - cbn in Ha. apply andb_true_iff in Ha. destruct Ha as [Hc Ha].
    apply negb_true_iff in Hc. cbn [append split_from]. rewrite Hc.
    rewrite IH by assumption. rewrite append_assoc. reflexivity.
Qed.

Lemma split_from_blank b : forall rest,
  blank b = true -> split_from "" (b ++ rest) = split_from "" rest.
Proof.
  induction b as [|c b IH]; intros rest Hb; [reflexivity|].
  cbn in Hb. apply andb_true_iff in Hb. destruct Hb as [Hc Hb].
  cbn [append split_from]. rewrite Hc. apply IH. assumption.
Qed.

Lemma split_from_field cur b rest :
  cur <> "" -> b <> "" -> blank b = true ->
  split_from cur (b ++ rest) = cur :: split_from "" rest.
Proof.
  intros Hcur Hne Hb. destruct b as [|c b]; [congruence|].
  cbn in Hb. apply andb_true_iff in Hb. destruct Hb as [Hc Hb].
  cbn [append split_from]. rewrite Hc.
  destruct cur; [congruence|]. rewrite split_from_blank by assumption.
  reflexivity.
Qed.

(** Two fields set apart and followed by white space are what [split]
    finds. *)
Lemma split_two_fields a sep b e :
  solid a = true -> a <> "" -> solid b = true -> b <> "" ->
  blank sep = true -> sep <> "" -> blank e = true ->
  split (a ++ sep ++ b ++ e) = [a; b].
Proof.
  intros Ha Hane Hb Hbne Hsep Hsepne He. unfold split.
  rewrite split_from_solid by assumption. cbn [append].
  rewrite split_from_field by assumption.
  rewrite split_from_solid by assumption. cbn [append].
  destruct e as [|c e].
  - cbn. destruct b; [congruence|reflexivity].
  - rewrite <- (append_nil_r (String c e)).
    rewrite split_from_field by (assumption || discriminate). reflexivity.
Qed.

Local Close Scope string_scope.

(** ** Word files *)

Local Open Scope string_scope.

Lemma strip_blank b : blank b = true -> strip b = "".
Proof. intros H. unfold strip. rewrite lstrip_blank by assumption. reflexivity. Qed.

(** A path that is not a file: whichever format is asked for, importing
    raises [FileNotFoundError] with the path in its message, and so does
    the constructor; the word list of the object is not touched and is
    not marked as external. *)
Theorem import_missing_file (fs : filesystem) (bundled : resource)
    (inputfile : string) (is_diceware : value) (self : Passphrase) :
  fs inputfile = None ->
  import_words_from_file fs inputfile is_diceware self =
  (inl (FileNotFoundError ("Input file does not exists: " ++ inputfile)), self) /\
  __init__ fs bundled (Some inputfile) is_diceware self =
  (inl (FileNotFoundError ("Input file does not exists: " ++ inputfile)), self).
Proof.
  intros H. cbn [__init__]. unfold import_words_from_file,
    _read_words_from_diceware, _read_words_from_wordfile. rewrite H.
  destruct (is_True is_diceware); split; reflexivity.
Qed.

Lemma import_missing_file_witness :
  sample_fs "nowhere.txt" = None /\
  import_words_from_file sample_fs "nowhere.txt" (VBool true) (sample four_words) =
  (inl (FileNotFoundError "Input file does not exists: nowhere.txt"),
   sample four_words).
Proof.
  split; [reflexivity|].
  exact (proj1 (import_missing_file sample_fs (mkResource [] (VInt 0))
                  "nowhere.txt" (VBool true) (sample four_words) eq_refl)).
Defined.

(** Reading a plain word file gives one word for each line, none with
    white space at either end; a line of white space alone, an empty
    line for one, gives the empty word. *)
Theorem wordfile_words (fs : filesystem) (inputfile : string)
    (lines : list string) :
  fs inputfile = Some lines ->
  exists words,
    _read_words_from_wordfile fs inputfile = inr words /\
    List.length words = List.length lines /\
    Forall (fun w => trimmed w = true) words /\
    (forall line, In line lines -> blank line = true -> In "" words).
Proof.
  intros H. exists (map strip lines). unfold _read_words_from_wordfile.
  rewrite H. split; [reflexivity|]. split; [apply length_map|]. split.
  - apply Forall_forall. intros w Hw. apply in_map_iff in Hw.
    destruct Hw as (l & <- & _). apply strip_trimmed.
  - intros line Hin Hb. apply in_map_iff. exists line.
    split; [apply strip_blank|]; assumption.
Qed.

Lemma wordfile_words_witness :
  sample_fs "gap.txt" =
  Some ["11111" ++ tab ++ "abacus" ++ newline; newline] /\
  exists words,
    _read_words_from_wordfile sample_fs "gap.txt" = inr words /\
    List.length words = 2%nat /\ In "" words.
Proof.
  split; [reflexivity|].
  destruct (wordfile_words sample_fs "gap.txt" _ eq_refl)
    as (words & Hrun & Hlen & _ & Hblank).
  exists words. split; [exact Hrun|]. split; [exact Hlen|].
  apply (Hblank newline); [right; left; reflexivity|reflexivity].
Defined.

(** Words with no white space at either end, written one to a line, are
    read back as they were written, in order. *)
Theorem wordfile_round_trip (fs : filesystem) (inputfile : string)
    (words : list string) :
  Forall (fun w => trimmed w = true) words ->
  fs inputfile = Some (map (fun w => w ++ newline) words) ->
  _read_words_from_wordfile fs inputfile = inr words.
Proof.
  intros Hw H. unfold _read_words_from_wordfile. rewrite H. f_equal.
  rewrite map_map. rewrite <- (map_id words) at 2. apply map_ext_in.
  intros w Hin. rewrite Forall_forall in Hw.
  apply strip_append_blank; [auto|reflexivity].
Qed.

Lemma wordfile_round_trip_witness :
  Forall (fun w => trimmed w = true) four_words /\
  sample_fs "words.txt" = Some (map (fun w => w ++ newline) four_words) /\
  _read_words_from_wordfile sample_fs "words.txt" = inr four_words.
Proof.
  assert (H : Forall (fun w => trimmed w = true) four_words)
    by (repeat constructor).
  split; [exact H|]. split; [reflexivity|].
  exact (wordfile_round_trip sample_fs "words.txt" four_words H eq_refl).
Defined.

Lemma second_fields_inr lines : forall words,
  second_fields lines = inr words ->
  List.length words = List.length lines /\
  Forall (fun l => (2 <= List.length (split l))%nat) lines.
Proof.
  induction lines as [|l lines IH]; intros words H.
  - injection H as <-. split; [reflexivity|constructor].
  - cbn [second_fields] in H.
    destruct (nth_error (split l) 1) as [w|] eqn:E; [|discriminate].
    destruct (second_fields lines) as [e|ws]; [discriminate|].
    injection H as <-. destruct (IH ws eq_refl) as [Hlen Hall].
    split; [cbn; lia|]. constructor; [|assumption].
    assert (Hlt : (1 < List.length (split l))%nat)
      by (apply nth_error_Some; congruence).
    lia.
Qed.

Lemma second_fields_inl lines : forall e,
  second_fields lines = inl e ->
  e = Other (IndexError "list index out of range") /\
  Exists (fun l => (List.length (split l) < 2)%nat) lines.
Proof.
  induction lines as [|l lines IH]; intros e H; [discriminate|].
  cbn [second_fields] in H.
  destruct (nth_error (split l) 1) as [w|] eqn:E.
  - destruct (second_fields lines) as [e'|ws]; [|discriminate].
    injection H as <-. destruct (IH e' eq_refl) as [-> Hex].
    split; [reflexivity|]. apply Exists_cons_tl. assumption.
  - injection H as <-. split; [reflexivity|]. apply Exists_cons_hd.
    apply nth_error_None in E. lia.
Qed.

(** Reading a diceware file raises [IndexError] exactly when some line
    has fewer than two fields, an empty line for one; otherwise it gives
    one word for each line. *)
Theorem diceware_short_line (fs : filesystem) (inputfile : string)
    (lines : list string) :
  fs inputfile = Some lines ->
  (Exists (fun l => (List.length (split l) < 2)%nat) lines ->
   _read_words_from_diceware fs inputfile =
   inl (Other (IndexError "list index out of range"))) /\
  (Forall (fun l => (2 <= List.length (split l))%nat) lines ->
   exists words,
     _read_words_from_diceware fs inputfile = inr words /\
     List.length words = List.length lines).
Proof.
  intros H. unfold _read_words_from_diceware. rewrite H.
  destruct (second_fields lines) as [e|words] eqn:E.
  - destruct (second_fields_inl _ _ E) as [-> Hex]. split; [reflexivity|].
    intros Hall. exfalso. apply Exists_exists in Hex.
    destruct Hex as (l & Hin & Hlt). rewrite Forall_forall in Hall.
    specialize (Hall l Hin). cbv beta in Hall, Hlt.
    apply Nat.lt_nge in Hlt. exact (Hlt Hall).
  - destruct (second_fields_inr _ _ E) as [Hlen Hall]. split.
    + intros Hex. exfalso. apply Exists_exists in Hex.
      destruct Hex as (l & Hin & Hlt). rewrite Forall_forall in Hall.
      specialize (Hall l Hin). cbv beta in Hall, Hlt.
      apply Nat.lt_nge in Hlt. exact (Hlt Hall).
    + intros _. exists words. split; [reflexivity|assumption].
Qed.

Lemma diceware_short_line_witness :
  sample_fs "gap.txt" =
  Some ["11111" ++ tab ++ "abacus" ++ newline; newline] /\
  Exists (fun l => (List.length (split l) < 2)%nat)
    ["11111" ++ tab ++ "abacus" ++ newline; newline] /\
  _read_words_from_diceware sample_fs "gap.txt" =
  inl (Other (IndexError "list index out of range")).
Proof.
  assert (Hex : Exists (fun l => (List.length (split l) < 2)%nat)
                  ["11111" ++ tab ++ "abacus" ++ newline; newline])
    by (apply Exists_cons_tl, Exists_cons_hd; apply Nat.ltb_lt; reflexivity).
  split; [reflexivity|]. split; [exact Hex|].
  exact (proj1 (diceware_short_line sample_fs "gap.txt" _ eq_refl) Hex).
Defined.

(** A diceware file written as an index, a tab, a word and a newline on
    each line, index and word without white space and not empty, is
    read back as the words, in order. *)
Theorem diceware_round_trip (fs : filesystem) (inputfile : string)
    (entries : list (string * string)) :
  Forall (fun e => solid (fst e) = true /\ fst e <> "" /\
                   solid (snd e) = true /\ snd e <> "") entries ->
  fs inputfile =
  Some (map (fun e => fst e ++ tab ++ snd e ++ newline) entries) ->
  _read_words_from_diceware fs inputfile = inr (map snd entries).
Proof.
  intros He H. unfold _read_words_from_diceware. rewrite H. clear H.
  induction He as [|[idx w] entries (Hi & Hine & Hw & Hwne) _ IH];
    [reflexivity|].
  cbn [map second_fields fst snd].
  rewrite (split_two_fields idx tab w newline)
    by (assumption || reflexivity || discriminate).
  cbn [nth_error]. rewrite IH. reflexivity.
Qed.

Lemma diceware_round_trip_witness :
  Forall (fun e => solid (fst e) = true /\ fst e <> "" /\
                   solid (snd e) = true /\ snd e <> "")
    [("11111", "abacus"); ("11112", "abdomen")] /\
  sample_fs "dice.txt" =
  Some (map (fun e => fst e ++ tab ++ snd e ++ newline)
          [("11111", "abacus"); ("11112", "abdomen")]) /\
  _read_words_from_diceware sample_fs "dice.txt" = inr ["abacus"; "abdomen"].
Proof.
  assert (H : Forall (fun e => solid (fst e) = true /\ fst e <> "" /\
                               solid (snd e) = true /\ snd e <> "")
                [("11111", "abacus"); ("11112", "abdomen")]).
  { repeat constructor; discriminate. }
  split; [exact H|]. split; [reflexivity|].
  exact (diceware_round_trip sample_fs "dice.txt" _ H eq_refl).
Defined.


(** After an import that succeeds the word list is what the reader asked
    for returned (the diceware reader for [True] alone), the list is
    marked as external, nothing else has changed, and every word that
    [generate] then returns is a word of that list. *)
Theorem import_then_generate (fs : filesystem) (inputfile : string)
    (is_diceware : value) (self self' : Passphrase) :
  import_words_from_file fs inputfile is_diceware self = (inr tt, self') ->
  exists words,
    (if is_True is_diceware
     then _read_words_from_diceware fs inputfile
     else _read_words_from_wordfile fs inputfile) = inr words /\
    wordlist self' = words /\
    _external_wordlist self' = true /\
    (forall f, read f self' = read f self) /\
    last_result self' = last_result self /\
    separator self' = separator self /\
    (forall MIN_NUM MAX_NUM fuel os tokens w',
        generate MIN_NUM MAX_NUM fuel (self', os) = (Ret tokens, w') ->
        forall w, In (TStr w) tokens -> In w words).
Proof.
  unfold import_words_from_file.
  destruct (if is_True is_diceware
            then _read_words_from_diceware fs inputfile
            else _read_words_from_wordfile fs inputfile) as [e|words];
    [discriminate|].
  intros H. injection H as <-. exists words.
  split; [reflexivity|]. split; [reflexivity|]. split; [reflexivity|].
  split; [intros f; destruct f; reflexivity|].
  split; [reflexivity|]. split; [reflexivity|].
  intros MIN_NUM MAX_NUM fuel os tokens w' Hgen w Hin.
  apply generate_Ret in Hgen.
  destruct Hgen as (ws & ns & -> & _ & _ & Hws & _ & _).
  apply in_app_or in Hin. destruct Hin as [Hin|Hin].
  - apply in_map_iff in Hin. destruct Hin as (x & Hx & Hin).
    injection Hx as <-. rewrite Forall_forall in Hws. exact (Hws _ Hin).
  - apply in_map_iff in Hin. destruct Hin as (x & Hx & _). discriminate.
Qed.

Lemma import_then_generate_witness :
  import_words_from_file sample_fs "dice.txt" (VInt 1) (sample []) =
  (inr tt, with_wordlist ["11111" ++ tab ++ "abacus";
                          "11112" ++ tab ++ "abdomen"] true (sample [])) /\
  exists words,
    _read_words_from_wordfile sample_fs "dice.txt" = inr words /\
    wordlist (with_wordlist ["11111" ++ tab ++ "abacus";
                             "11112" ++ tab ++ "abdomen"] true (sample [])) =
    words.
Proof.
  assert (H : import_words_from_file sample_fs "dice.txt" (VInt 1) (sample []) =
              (inr tt,
               with_wordlist ["11111" ++ tab ++ "abacus";
                              "11112" ++ tab ++ "abdomen"] true (sample [])))
    by reflexivity.
  split; [exact H|].
  destruct (import_then_generate sample_fs "dice.txt" (VInt 1) _ _ H)
    as (words & Hread & Hwl & _).
  exists words. split; assumption.
Defined.

Local Close Scope string_scope.

(** ** Construction and sizing *)



Section SizingOnceMore.

Variable calc_entropy_bits : list value -> res value.
Variable calc_entropy_bits_nrange : value -> value -> res value.
Variable calc_words_amount_needed : value -> value -> value -> value -> res value.

Lemma words_amount_needed_run (self : Passphrase) :
  words_amount_needed calc_entropy_bits calc_entropy_bits_nrange
    calc_words_amount_needed self =
  (and_then
     (calc_entropy_bits_nrange (VInt (randnum_min self)) (VInt (randnum_max self)))
     (fun entropy_n =>
        and_then
          (if _external_wordlist self
           then calc_entropy_bits (map VStr (wordlist self))
           else Ret (_wordlist_entropy_bits self))
          (fun entropy_w =>
             calc_words_amount_needed (entropy_bits_req self) entropy_w
               entropy_n (VInt (amount_n self)))),
   self).
Proof.
  unfold words_amount_needed. unfold bind at 1. cbn [get].
  unfold bind at 1. unfold lift_res at 1.
  rewrite entropy_bits_cases. cbn [isinstance_number andb].
  destruct (calc_entropy_bits_nrange _ _) as [entropy_n|e|]; cbn [and_then];
    [|reflexivity..].
  unfold bind. destruct (_external_wordlist self); cbn [negb].
  - unfold lift_res, wordlist. rewrite entropy_bits_words.
    destruct (calc_entropy_bits (map VStr (_wordlist self))) as [entropy_w|e|];
      reflexivity.
  - reflexivity.
Qed.

(** An instance constructed from the bundled list sizes with the
    entropy stored in the bundle and never computes that of the list;
    once a word list has been assigned, by the setter or by an import,
    the stored entropy is out of use and the entropy is that of the
    assigned words as an alphabet, two words that look like nothing but
    themselves included. *)
Theorem sizing_follows_the_word_list (MIN_NUM MAX_NUM : Z)
    (ENTROPY_BITS_MIN : value) (fs : filesystem) (bundled : resource)
    (is_diceware : value) (words : list string) (self : Passphrase) :
  words_amount_needed calc_entropy_bits calc_entropy_bits_nrange
    calc_words_amount_needed
    (snd (__init__ fs bundled None is_diceware
            (Passphrase_class MIN_NUM MAX_NUM ENTROPY_BITS_MIN))) =
  (and_then (calc_entropy_bits_nrange (VInt MIN_NUM) (VInt MAX_NUM))
     (fun entropy_n =>
        calc_words_amount_needed ENTROPY_BITS_MIN
          (resource_entropy_bits bundled) entropy_n (VInt 0)),
   snd (__init__ fs bundled None is_diceware
          (Passphrase_class MIN_NUM MAX_NUM ENTROPY_BITS_MIN))) /\
  words_amount_needed calc_entropy_bits calc_entropy_bits_nrange
    calc_words_amount_needed (snd (set_wordlist words self)) =
  (and_then
     (calc_entropy_bits_nrange (VInt (randnum_min self)) (VInt (randnum_max self)))
     (fun entropy_n =>
        and_then (calc_entropy_bits (map VStr words))
          (fun entropy_w =>
             calc_words_amount_needed (entropy_bits_req self) entropy_w
               entropy_n (VInt (amount_n self)))),
   snd (set_wordlist words self)).
Proof.
  split; rewrite words_amount_needed_run; reflexivity.
Qed.

End SizingOnceMore.
